(** * TwoLayerPerceptron: a shallow embedding of the notebook's Python code

    The notebook [CodingSession2/TwoLayerPerceptron.ipynb] defines the layers of
    a two-layer perceptron, a one-hot label encoder, a mini-batch generator, a
    mean-squared-error loss and a training loop.  Each Python function is
    embedded below under its own name.

    Conventions of the embedding:
    - integer label arrays are lists of [Z];
    - numpy [float64] arrays are lists (of lists) of numbers.  Where only the
      shape of an array, the control flow or the exception raised matters,
      the entries are real numbers [R], read in exact arithmetic; what is
      proved on that model never depends on a computed value.  Where a
      computed value matters ([mse_loss], [rel_error]) the code is embedded
      over IEEE 754 binary64 numbers ([f64]), with every operation rounded;
    - a Python value that may be [None] is a [value];
    - a Python exception is an [Err] result;
    - the [self.params] / [grads] dictionaries are [gmap string value];
    - numpy's random generators are parameters of a section. *)

From Stdlib Require Import ZArith List Reals Lra Lia Permutation.
From Stdlib Require SpecFloat.
From stdpp Require Import gmap strings list fin_maps.

(** ** Python values, exceptions and results *)

Abbreviation vector := (list R).
Abbreviation matrix := (list (list R)).

(** A Python object as the layers see it: [None], a 1-d float array or a 2-d
    float array. *)
Inductive value : Type :=
  | VNone
  | VVec (v : vector)
  | VMat (m : matrix).

Inductive exn : Type :=
  | IndexError
  | KeyError
  | NameError
  | ValueError
  | TypeError
  | ZeroDivisionError
  | UnboundLocalError
  | AxisError.

Inductive result (A : Type) : Type :=
  | Ok (a : A)
  | Err (e : exn).
Arguments Ok {A} a.
Arguments Err {A} e.

Definition rbind {A B : Type} (r : result A) (k : A → result B) : result B :=
  match r with
  | Ok a => k a
  | Err e => Err e
  end.

Notation "x ←r r ; k" := (rbind r (λ x, k))
  (at level 20, r at level 100, k at level 200, only parsing).

(** ** numpy primitives used by the notebook *)

(** [np.zeros((n, c))] *)
Definition np_zeros (n c : nat) : matrix := replicate n (replicate c 0%R).

(** [np.zeros(n)] *)
Definition np_zeros1 (n : nat) : vector := replicate n 0%R.

(** Index normalisation along an axis of length [n]: [0 <= k < n] is kept,
    [-n <= k < 0] counts from the end, anything else raises [IndexError]. *)
Definition norm_index (n : nat) (k : Z) : result nat :=
  if decide (0 ≤ k < Z.of_nat n)%Z then Ok (Z.to_nat k)
  else if decide (- Z.of_nat n ≤ k < 0)%Z then Ok (Z.to_nat (k + Z.of_nat n))
  else Err IndexError.

(** [ary[i, val] = x] on an array with [ncols] columns, where the row index
    [i] comes from [enumerate] and the column index [val] is a label. *)
Definition setitem2 (ncols : nat) (ary : matrix) (i : nat) (val : Z) (x : R)
  : result matrix :=
  j ←r norm_index ncols val;
  Ok (alter (λ row, <[j := x]> row) i ary).

(** ** Cell 14: [int_to_onehot] *)

(** The loop [for i, val in enumerate(y): ary[i, val] = 1], started at
    position [i]. *)
Fixpoint onehot_loop (num_labels : nat) (ary : matrix) (i : nat) (ys : list Z)
  : result matrix :=
  match ys with
  | [] => Ok ary
  | val :: ys' =>
      ary' ←r setitem2 num_labels ary i val 1%R;
      onehot_loop num_labels ary' (S i) ys'
  end.

Definition int_to_onehot (y : list Z) (num_labels : nat) : result matrix :=
  let ary := np_zeros (length y) num_labels in
  onehot_loop num_labels ary 0 y.

(** ** Cells 16-32: the layers

    The bodies between the notebook's [START OF YOUR CODE] and
    [END OF YOUR CODE] markers are empty, so the variables initialised to
    [None] before the markers are returned unchanged. *)

Definition affine_cache : Type := value * value * value.

(** Cell 16: [out = None; cache = (x, w, b); return out, cache] *)
Definition affine_forward (x w b : value) : value * affine_cache :=
  let out := VNone in
  let cache := (x, w, b) in
  (out, cache).

(** Cell 20: [x, w, b = cache; dx, dw, db = None, None, None;
    return dx, dw, db] *)
Definition affine_backward (dout : value) (cache : affine_cache)
  : value * value * value :=
  let '(x, w, b) := cache in
  let '(dx, dw, db) := (VNone, VNone, VNone) in
  (dx, dw, db).

(** Cell 24: [out = None; cache = x; return out, cache] *)
Definition relu_forward (x : value) : value * value :=
  let out := VNone in
  let cache := x in
  (out, cache).

(** Cell 28: [dx, x = None, cache; return dx] *)
Definition relu_backward (dout : value) (cache : value) : value :=
  let '(dx, x) := (VNone, cache) in
  dx.

(** Cell 32 *)
Definition affine_relu_forward (x w b : value)
  : value * (affine_cache * value) :=
  let '(a, fc_cache) := affine_forward x w b in
  let '(out, relu_cache) := relu_forward a in
  let cache := (fc_cache, relu_cache) in
  (out, cache).

Definition affine_relu_backward (dout : value) (cache : affine_cache * value)
  : value * value * value :=
  let '(fc_cache, relu_cache) := cache in
  let da := relu_backward dout relu_cache in
  let '(dx, dw, db) := affine_backward da fc_cache in
  (dx, dw, db).

(** ** The layer equations as the specification words them

    These are not taken from the notebook: they are the formulas of the
    specification, kept apart under [spec_] names so that the notebook's
    layers can be compared with them. *)

Fixpoint Rsum (l : list R) : R :=
  match l with
  | [] => 0
  | x :: l' => x + Rsum l'
  end%R.

Definition dot (u v : vector) : R := Rsum (zip_with Rmult u v).

(** Column [j] of a matrix (entries missing in ragged rows read as 0). *)
Definition column (j : nat) (m : matrix) : vector :=
  (λ row : vector, default 0%R (row !! j)) <$> m.

Definition ncols (m : matrix) : nat := from_option length 0 (head m).

Definition spec_transpose (m : matrix) : matrix :=
  (λ j, column j m) <$> seq 0 (ncols m).

(** [a · b] for [b] with [c] columns. *)
Definition spec_matmul (c : nat) (a b : matrix) : matrix :=
  (λ row : vector, (λ j, dot row (column j b)) <$> seq 0 c) <$> a.

Definition spec_colsum (c : nat) (m : matrix) : vector :=
  (λ j, Rsum (column j m)) <$> seq 0 c.

(** [dX = dY·Wᵀ], [dW = Xᵀ·dY], [db = column-sum(dY)] for [X : N×D],
    [W : D×M], [dY : N×M]. *)
Definition spec_affine_backward (D M : nat) (dY X W : matrix)
  : value * value * value :=
  (VMat (spec_matmul D dY (spec_transpose W)),
   VMat (spec_matmul M (spec_transpose X) dY),
   VVec (spec_colsum M dY)).

(** [Y = max(0, X)] elementwise. *)
Definition spec_relu_forward (X : matrix) : matrix :=
  (λ row : vector, Rmax 0 <$> row) <$> X.

(** [dX[i] = dY[i]] where [X[i] > 0], else [0]. *)
Definition spec_relu_backward (dY X : matrix) : matrix :=
  zip_with (zip_with (λ d x, if Rlt_dec 0 x then d else 0%R)) dY X.

(** ** Python built-ins used by the generator and the loops *)

(** Number of elements of [range(start, stop, step)] for [step ≠ 0]. *)
Definition range_len (start stop step : Z) : Z :=
  if decide (0 < step)%Z then
    if decide (start < stop)%Z then (stop - start - 1) / step + 1 else 0
  else
    if decide (stop < start)%Z then (start - stop - 1) / (- step) + 1 else 0.

(** [range(start, stop, step)]; a zero step raises [ValueError]. *)
Definition py_range (start stop step : Z) : result (list Z) :=
  if decide (step = 0)%Z then Err ValueError
  else Ok ((λ k : nat, (start + Z.of_nat k * step)%Z)
             <$> seq 0 (Z.to_nat (range_len start stop step))).

(** Clamping of a slice bound against a length. *)
Definition slice_bound (len : nat) (k : Z) : nat :=
  let k' := if decide (k < 0)%Z then (k + Z.of_nat len)%Z else k in
  if decide (k' < 0)%Z then 0
  else if decide (Z.of_nat len < k')%Z then len
  else Z.to_nat k'.

(** [l[lo:hi]] *)
Definition py_slice {A : Type} (l : list A) (lo hi : Z) : list A :=
  let lo' := slice_bound (length l) lo in
  let hi' := slice_bound (length l) hi in
  take (hi' - lo') (drop lo' l).

Fixpoint mapM_result {A B : Type} (f : A → result B) (l : list A)
  : result (list B) :=
  match l with
  | [] => Ok []
  | a :: l' => b ←r f a; bs ←r mapM_result f l'; Ok (b :: bs)
  end.

(** [a[idx]] for an array of non-negative indices: the selected entries in
    the order of [idx]; an index past the end raises [IndexError]. *)
Definition take_idx {A : Type} (a : list A) (idx : list nat) : result (list A) :=
  mapM_result (λ i, match a !! i with
                    | Some x => Ok x
                    | None => Err IndexError
                    end) idx.

(** A generator is the list of its [yield]s, each one the outcome of resuming
    the generator: a value, or the exception raised on the way to it. *)
Abbreviation generator A := (list (result A)).

(** [for x in gen: s = body(s, x)] *)
Fixpoint for_each {A S : Type} (gen : generator A) (body : S → A → result S)
  (s : S) : result S :=
  match gen with
  | [] => Ok s
  | r :: gen' => x ←r r; s' ←r body s x; for_each gen' body s'
  end.

(** [d[k]] on a dictionary. *)
Definition getitem (d : gmap string value) (k : string) : result value :=
  match d !! k with
  | Some v => Ok v
  | None => Err KeyError
  end.

(** [a / n] for a Python float [a] and a Python int [n]. *)
Definition py_div (a : R) (n : Z) : result R :=
  if decide (n = 0)%Z then Err ZeroDivisionError else Ok (a / IZR n)%R.

(** Broadcasting: an axis of length one is stretched to the length [n] of
    the other operand's axis. *)
Definition stretch {A : Type} (n : nat) (l : list A) : list A :=
  match l with
  | [x] => replicate n x
  | _ => l
  end.

(** Elementwise combination along one axis; axes whose lengths still differ
    after stretching raise [ValueError]. *)
Fixpoint zip_result {A B C : Type} (f : A → B → result C) (a : list A)
  (b : list B) : result (list C) :=
  match a, b with
  | [], [] => Ok []
  | x :: a', y :: b' => z ←r f x y; zs ←r zip_result f a' b'; Ok (z :: zs)
  | _, _ => Err ValueError
  end.

Definition vec_sub (u v : vector) : result vector :=
  zip_result (λ x y, Ok (x - y)%R) (stretch (length v) u) (stretch (length u) v).

Definition mat_sub (a b : matrix) : result matrix :=
  zip_result vec_sub (stretch (length b) a) (stretch (length a) b).

(** [a - p] for a 2-d array [a]: a 1-d operand counts as a single row, and
    [None] raises [TypeError]. *)
Definition np_sub (a : matrix) (p : value) : result matrix :=
  match p with
  | VMat b => mat_sub a b
  | VVec v => mat_sub a [v]
  | VNone => Err TypeError
  end.

(** Sum of the squares of all entries. *)
Definition sum_squares (m : matrix) : R :=
  Rsum ((λ row : vector, Rsum ((λ x, x * x)%R <$> row)) <$> m).

(** [np.linalg.norm(m)] of a 2-d array, the Frobenius norm, in exact
    arithmetic; [np_linalg_norm_f64] is the rounded one. *)
Definition np_linalg_norm (m : matrix) : R := sqrt (sum_squares m).

(** Position of the first maximum of a non-empty row. *)
Fixpoint argmax_from (best : R) (besti i : nat) (row : vector) : nat :=
  match row with
  | [] => besti
  | x :: row' =>
      if Rlt_dec best x then argmax_from x i (S i) row'
      else argmax_from best besti (S i) row'
  end.

(** [np.argmax(p, axis=1)] *)
Definition np_argmax1 (p : value) : result (list Z) :=
  match p with
  | VMat m =>
      mapM_result (λ row : vector,
        match row with
        | [] => Err ValueError
        | x :: row' => Ok (Z.of_nat (argmax_from x 0 1 row'))
        end) m
  | VVec _ | VNone => Err AxisError
  end.

(** [(a == b).sum()] for two integer arrays. *)
Definition count_eq (a b : list Z) : result Z :=
  eqs ←r zip_result (λ x y, Ok (bool_decide (x = y)))
           (stretch (length b) a) (stretch (length a) b);
  Ok (Z.of_nat (length (filter (λ t, t = true) eqs))).

(** ** Cell 40: [mse_loss] *)

(** The loss in exact arithmetic: what is proved of it is which exception it
    raises.  [mse_loss_f64] is the loss as the machine computes it, and
    [mse_loss_outcome] shows that both raise the same exceptions. *)
Definition mse_loss (targets : list Z) (probas : value) (num_labels : nat)
  : result R :=
  onehot_targets ←r int_to_onehot targets num_labels;
  c ←r py_div 0.5 (Z.of_nat (length targets));
  d ←r np_sub onehot_targets probas;
  Ok (c * np_linalg_norm d ^ 2)%R.

(** ** Cell 34: [TwoLayerNN] *)

Record TwoLayerNN : Type := {
  num_classes : nat;
  params : gmap string value
}.

(** What [loss] returns: the scores when [y is None], otherwise the pair
    [(loss, grads)]. *)
Inductive loss_result : Type :=
  | Scores (scores : value)
  | LossGrads (loss : value) (grads : gmap string value).

(** [TwoLayerNN.loss(self, X, y=None)].  With labels, the body between the
    markers is empty, so the first statement after it,
    [grads['weight_in'] = dweight_in], reads a name that is bound neither in
    the method nor at the top level of the notebook. *)
Definition loss (self : TwoLayerNN) (X : value) (y : option (list Z))
  : result loss_result :=
  match y with
  | None =>
      w_in ←r getitem (params self) "weight_in";
      b_in ←r getitem (params self) "bias_in";
      let '(out1, cache1) := affine_relu_forward X w_in b_in in
      w_out ←r getitem (params self) "weight_out";
      b_out ←r getitem (params self) "bias_out";
      let '(out2, cache2) := affine_forward out1 w_out b_out in
      Ok (Scores out2)
  | Some y =>
      w_in ←r getitem (params self) "weight_in";
      b_in ←r getitem (params self) "bias_in";
      let '(out1, cache1) := affine_relu_forward X w_in b_in in
      w_out ←r getitem (params self) "weight_out";
      b_out ←r getitem (params self) "bias_out";
      let '(out2, cache2) := affine_forward out1 w_out b_out in
      let loss : value := VNone in
      let grads : gmap string value := ∅ in
      Err NameError
  end.

Section Notebook.

(** *** numpy's random generators

    [rng_state] is the state of a [RandomState]; the module-level generator
    behind [np.random.shuffle] has a state of the same kind, threaded
    through every function that runs in its scope. *)
Context {rng_state : Type}.

(** [np.random.RandomState(seed)]; numpy rejects some seeds. *)
Context (RandomState : Z → result rng_state).

(** [rng.normal(loc, scale, size=(r, c))]: the drawn array and the next
    state. *)
Context (normal : rng_state → R → R → nat → nat → matrix * rng_state).

(** [np.random.shuffle(indices)]: the shuffled array and the next state. *)
Context (shuffle : rng_state → list nat → list nat * rng_state).

(** [TwoLayerNN.__init__]; [g] is the module-level generator, which the
    constructor leaves alone. *)
Definition TwoLayerNN_init (g : rng_state)
    (num_features num_hidden num_classes : nat) (random_seed : Z)
  : result (TwoLayerNN * rng_state) :=
  rng ←r RandomState random_seed;
  let params : gmap string value := ∅ in
  let '(w, rng) := normal rng 0 0.001 num_features num_hidden in
  let params := <["weight_in" := VMat w]> params in
  let params := <["bias_in" := VVec (np_zeros1 num_hidden)]> params in
  let '(w, rng) := normal rng 0 0.001 num_hidden num_classes in
  let params := <["weight_out" := VMat w]> params in
  let params := <["bias_out" := VVec (np_zeros1 num_classes)]> params in
  Ok ({| num_classes := num_classes; params := params |}, g).

(** *** Cell 38: [minibatch_generator] *)

Definition minibatch_generator (g : rng_state) (X : matrix) (y : list Z)
    (minibatch_size : Z)
  : result (generator (matrix * list Z)) * rng_state :=
  let indices := seq 0 (length X) in
  let '(indices, g) := shuffle g indices in
  (starts ←r py_range 0 (Z.of_nat (length indices) - minibatch_size + 1)
               minibatch_size;
   Ok ((λ start_idx : Z,
          let batch_idx :=
            py_slice indices start_idx (start_idx + minibatch_size) in
          Xb ←r take_idx X batch_idx;
          yb ←r take_idx y batch_idx;
          Ok (Xb, yb)) <$> starts),
   g).

(** *** Cell 42: [compute_mse_and_acc] *)

(** The loop variables [mse, correct_pred, num_examples] and the last value
    of [i] ([None] while the loop has not run). *)
Definition acc_state : Type := R * Z * Z * option nat.

Definition compute_mse_and_acc_body (nnet : TwoLayerNN) (num_labels : nat)
    (s : acc_state) (batch : matrix * list Z) : result acc_state :=
  let '(mse, correct_pred, num_examples, i) := s in
  let '(features, targets) := batch in
  r ←r loss nnet (VMat features) None;
  let probas := match r with Scores p => p | LossGrads l _ => l end in
  predicted_labels ←r np_argmax1 probas;
  onehot_targets ←r int_to_onehot targets num_labels;
  c ←r py_div 0.5 (Z.of_nat (length targets));
  d ←r np_sub onehot_targets probas;
  let loss := (c * np_linalg_norm d ^ 2)%R in
  n ←r count_eq predicted_labels targets;
  let correct_pred := (correct_pred + n)%Z in
  let num_examples := (num_examples + Z.of_nat (length targets))%Z in
  let mse := (mse + loss)%R in
  Ok (mse, correct_pred, num_examples, Some (from_option S 0 i)).

Definition compute_mse_and_acc (g : rng_state) (nnet : TwoLayerNN)
    (X : matrix) (y : list Z) (num_labels : nat) (minibatch_size : Z)
  : result (R * R * rng_state) :=
  let '(minibatch_gen, g) := minibatch_generator g X y minibatch_size in
  minibatch_gen ←r minibatch_gen;
  s ←r for_each minibatch_gen (compute_mse_and_acc_body nnet num_labels)
         (0%R, 0%Z, 0%Z, None);
  let '(mse, correct_pred, num_examples, i) := s in
  match i with
  | None => Err UnboundLocalError
  | Some i =>
      let mse := (mse / INR (i + 1))%R in
      let acc := (IZR correct_pred / IZR num_examples)%R in
      Ok (mse, acc, g)
  end.

(** *** Cell 46: [train] *)

(** The body of [for X_train_mini, y_train_mini in minibatch_gen]: the one
    statement before the empty marked region.  The model is the loop's
    state. *)
Definition train_minibatch (learning_rate : R) (model : TwoLayerNN)
    (batch : matrix * list Z) : result TwoLayerNN :=
  let '(X_train_mini, y_train_mini) := batch in
  mini_onehots ←r int_to_onehot y_train_mini 10;
  Ok model.

(** What the run has accumulated: [epoch_loss], [epoch_train_acc],
    [epoch_valid_acc], next to the model and the module-level generator. *)
Record train_state : Type := {
  epoch_loss : list R;
  epoch_train_acc : list R;
  epoch_valid_acc : list R;
  trained : TwoLayerNN;
  rng_after : rng_state
}.

(** One pass of [for e in range(num_epochs)]. *)
Definition train_epoch (minibatch_size : Z) (X_train : matrix)
    (y_train : list Z) (X_valid : matrix) (y_valid : list Z)
    (learning_rate : R) (s : train_state) : result train_state :=
  let '(minibatch_gen, g) :=
    minibatch_generator (rng_after s) X_train y_train minibatch_size in
  minibatch_gen ←r minibatch_gen;
  model ←r for_each minibatch_gen (train_minibatch learning_rate) (trained s);
  r ←r compute_mse_and_acc g model X_train y_train 10 100;
  let '(train_mse, train_acc, g) := r in
  r ←r compute_mse_and_acc g model X_valid y_valid 10 100;
  let '(valid_mse, valid_acc, g) := r in
  let train_acc := (train_acc * 100)%R in
  let valid_acc := (valid_acc * 100)%R in
  Ok {| epoch_loss := epoch_loss s ++ [train_mse];
        epoch_train_acc := epoch_train_acc s ++ [train_acc];
        epoch_valid_acc := epoch_valid_acc s ++ [valid_acc];
        trained := model;
        rng_after := g |}.

Fixpoint train_epochs (minibatch_size : Z) (X_train : matrix)
    (y_train : list Z) (X_valid : matrix) (y_valid : list Z)
    (learning_rate : R) (num_epochs : nat) (s : train_state)
  : result train_state :=
  match num_epochs with
  | O => Ok s
  | S n =>
      s' ←r train_epoch minibatch_size X_train y_train X_valid y_valid
              learning_rate s;
      train_epochs minibatch_size X_train y_train X_valid y_valid
        learning_rate n s'
  end.

(** [train(model, X_train, y_train, X_valid, y_valid, num_epochs,
    learning_rate)]; [minibatch_size] is the notebook's global of that name
    (400 in cell 38). *)
Definition train (g : rng_state) (minibatch_size : Z) (model : TwoLayerNN)
    (X_train : matrix) (y_train : list Z) (X_valid : matrix)
    (y_valid : list Z) (num_epochs : nat) (learning_rate : R)
  : result train_state :=
  train_epochs minibatch_size X_train y_train X_valid y_valid learning_rate
    num_epochs
    {| epoch_loss := []; epoch_train_acc := []; epoch_valid_acc := [];
       trained := model; rng_after := g |}.

End Notebook.

(** ** Further cells of the notebook *)

(** The keys that [__init__] puts into [self.params]. *)
Definition param_names : list string :=
  ["weight_in"; "bias_in"; "weight_out"; "bias_out"].

(** *** Cell 6: [X = (X/255. - .5)*2] *)

Definition normalize_pixels (X : matrix) : matrix :=
  (λ row : vector, (λ x, (x / 255 - 0.5) * 2)%R <$> row) <$> X.

(** *** Cell 40: [accuracy] *)

(** A float that numpy returns: a number, or [nan]. *)
Inductive npfloat : Type :=
  | Finite (r : R)
  | NaN.

(** [a == b] for two integer arrays. *)
Definition np_equal (a b : list Z) : result (list bool) :=
  zip_result (λ x y, Ok (bool_decide (x = y)))
    (stretch (length b) a) (stretch (length a) b).

(** [np.mean] of a boolean array; the mean of no element is [nan]. *)
Definition np_mean_bool (bs : list bool) : npfloat :=
  match bs with
  | [] => NaN
  | _ => Finite (INR (length (filter (λ t, t = true) bs)) / INR (length bs))
  end.

Definition accuracy (targets predicted_labels : list Z) : result npfloat :=
  eqs ←r np_equal predicted_labels targets;
  Ok (np_mean_bool eqs).

(** *** Elementwise operators of numpy, in exact arithmetic *)

Definition rmap {A B : Type} (f : A → B) (r : result A) : result B :=
  a ←r r; Ok (f a).

Definition vec_zip (f : R → R → R) (u v : vector) : result vector :=
  zip_result (λ x y, Ok (f x y)) (stretch (length v) u) (stretch (length u) v).

Definition mat_zip (f : R → R → R) (a b : matrix) : result matrix :=
  zip_result (vec_zip f) (stretch (length b) a) (stretch (length a) b).

(** An elementwise binary operator of numpy ([-], [+], [*], [/]) on arrays
    of one or two dimensions; a 1-d operand meeting a 2-d one counts as a
    single row, and [None] raises [TypeError]. *)
Definition np_binop (f : R → R → R) (x y : value) : result value :=
  match x, y with
  | VVec u, VVec v => rmap VVec (vec_zip f u v)
  | VVec u, VMat b => rmap VMat (mat_zip f [u] b)
  | VMat a, VVec v => rmap VMat (mat_zip f a [v])
  | VMat a, VMat b => rmap VMat (mat_zip f a b)
  | _, _ => Err TypeError
  end.

(** *** Cell 22: [eval_numerical_gradient_array]

    The function writes into its argument [x] while it runs, so it is
    modelled with the array as state: it returns the array as the call
    leaves it, next to what the call returns or raises.  The argument is a
    2-d array here. *)

(** What can be raised here: the exceptions above, and the [AttributeError]
    of [None.copy()]. *)
Inductive raised : Type :=
  | Raised (e : exn)
  | AttributeError.

Inductive outcome (A : Type) : Type :=
  | Returned (a : A)
  | Raises (e : raised).
Arguments Returned {A} a.
Arguments Raises {A} e.

(** [v.copy()] *)
Definition np_copy (v : value) : outcome value :=
  match v with
  | VNone => Raises AttributeError
  | _ => Returned v
  end.

(** [np.sum(v)] *)
Definition np_sum (v : value) : result R :=
  match v with
  | VVec u => Ok (Rsum u)
  | VMat m => Ok (Rsum (Rsum <$> m))
  | VNone => Err TypeError
  end.

(** [np.zeros_like(x)] *)
Definition np_zeros_like (x : matrix) : matrix :=
  (λ row : vector, (λ _, 0%R) <$> row) <$> x.

(** [x[ix]] and [x[ix] = v] for a multi-index of the iterator. *)
Definition getitem_at (x : matrix) (ix : nat * nat) : R :=
  default 0%R (x !! ix.1 ≫= λ row : vector, row !! ix.2).

Definition setitem_at (x : matrix) (ix : nat * nat) (v : R) : matrix :=
  alter (λ row : vector, <[ix.2 := v]> row) ix.1 x.

(** The multi-indices that [np.nditer] visits, in row-major order. *)
Definition multi_indices (x : matrix) : list (nat * nat) :=
  concat (imap (λ i (row : vector), (λ j, (i, j)) <$> seq 0 (length row)) x).

(** One turn of the [while] loop, from the arrays [x] and [grad]. *)
Definition numerical_gradient_at (f : matrix → value) (df : value) (h : R)
    (x grad : matrix) (ix : nat * nat) : matrix * outcome matrix :=
  let oldval := getitem_at x ix in
  let x := setitem_at x ix (oldval + h)%R in
  match np_copy (f x) with
  | Raises e => (x, Raises e)
  | Returned pos =>
      let x := setitem_at x ix (oldval - h)%R in
      match np_copy (f x) with
      | Raises e => (x, Raises e)
      | Returned neg =>
          let x := setitem_at x ix oldval in
          match (d ←r np_binop Rminus pos neg;
                 p ←r np_binop Rmult d df;
                 np_sum p) with
          | Err e => (x, Raises (Raised e))
          | Ok s => (x, Returned (setitem_at grad ix (s / (2 * h))%R))
          end
      end
  end.

Fixpoint numerical_gradient_loop (f : matrix → value) (df : value) (h : R)
    (x grad : matrix) (ixs : list (nat * nat)) : matrix * outcome matrix :=
  match ixs with
  | [] => (x, Returned grad)
  | ix :: ixs' =>
      match numerical_gradient_at f df h x grad ix with
      | (x, Returned grad) => numerical_gradient_loop f df h x grad ixs'
      | (x, Raises e) => (x, Raises e)
      end
  end.

(** [eval_numerical_gradient_array(f, x, df, h)]; the iterator refuses an
    array without elements. *)
Definition eval_numerical_gradient_array (f : matrix → value) (x : matrix)
    (df : value) (h : R) : matrix * outcome matrix :=
  let grad := np_zeros_like x in
  match multi_indices x with
  | [] => (x, Raises (Raised ValueError))
  | ixs => numerical_gradient_loop f df h x grad ixs
  end.

(** ** The arithmetic of the notebook in binary64

    Where a result depends on rounding, the code is embedded a second time
    over IEEE 754 binary64 numbers, with the operations of the standard
    library's specification of floating-point arithmetic (round to nearest,
    ties to even).  The definitions over [R] above are the same code read in
    exact arithmetic. *)

Abbreviation f64 := SpecFloat.spec_float.

Definition f64_add : f64 → f64 → f64 := SpecFloat.SFadd 53 1024.
Definition f64_sub : f64 → f64 → f64 := SpecFloat.SFsub 53 1024.
Definition f64_mul : f64 → f64 → f64 := SpecFloat.SFmul 53 1024.
Definition f64_div : f64 → f64 → f64 := SpecFloat.SFdiv 53 1024.
Definition f64_sqrt : f64 → f64 := SpecFloat.SFsqrt 53 1024.
Definition f64_abs : f64 → f64 := SpecFloat.SFabs.
Definition f64_leb : f64 → f64 → bool := SpecFloat.SFleb.

(** The float nearest to an integer, as Python converts an [int].  (An [int]
    of 2^1024 or more, which the length of an array never is, makes Python
    raise [OverflowError]; here it becomes [inf].) *)
Definition f64_of_Z (z : Z) : f64 := SpecFloat.binary_normalize 53 1024 z 0 false.

Definition f64_zero : f64 := SpecFloat.S754_zero false.
Definition f64_nan : f64 := SpecFloat.S754_nan.
Definition f64_one : f64 := f64_of_Z 1.
(** The literals [0.5] and [1e-8]. *)
Definition f64_half : f64 := f64_div f64_one (f64_of_Z 2).
Definition f64_1e_8 : f64 := f64_div f64_one (f64_of_Z 100000000).

(** Neither an infinity nor [nan]. *)
Definition f64_is_finite (x : f64) : bool :=
  match x with
  | SpecFloat.S754_zero _ | SpecFloat.S754_finite _ _ _ => true
  | _ => false
  end.

(** The real number a float stands for; [0] for an infinity and for [nan]. *)
Definition f64_to_R (x : f64) : R :=
  match x with
  | SpecFloat.S754_finite s m e =>
      let v := (IZR (Z.pos m) * powerRZ 2 e)%R in
      if s then (- v)%R else v
  | _ => 0%R
  end.

(** [nan], or a number whose sign bit is clear: [+0.0], a positive number
    or [+inf]. *)
Definition f64_sign_clear (x : f64) : bool :=
  match x with
  | SpecFloat.S754_nan => true
  | SpecFloat.S754_zero s | SpecFloat.S754_infinity s
  | SpecFloat.S754_finite s _ _ => negb s
  end.

(** A positive number or [+inf]. *)
Definition f64_positive (x : f64) : bool :=
  match x with
  | SpecFloat.S754_infinity s | SpecFloat.S754_finite s _ _ => negb s
  | _ => false
  end.

(** [None], a 1-d or a 2-d [float64] array. *)
Inductive fvalue : Type :=
  | FNone
  | FVec (v : list f64)
  | FMat (m : list (list f64)).

(** A float array read as an array of reals. *)
Definition fvalue_to_value (p : fvalue) : value :=
  match p with
  | FNone => VNone
  | FVec v => VVec (f64_to_R <$> v)
  | FMat m => VMat ((λ row : list f64, f64_to_R <$> row) <$> m)
  end.

(** *** [int_to_onehot], writing floats *)

Definition np_zeros_f64 (n c : nat) : list (list f64) :=
  replicate n (replicate c f64_zero).

Definition setitem2_f64 (ncols : nat) (ary : list (list f64)) (i : nat)
    (val : Z) (x : f64) : result (list (list f64)) :=
  j ←r norm_index ncols val;
  Ok (alter (λ row : list f64, <[j := x]> row) i ary).

Fixpoint onehot_loop_f64 (num_labels : nat) (ary : list (list f64)) (i : nat)
    (ys : list Z) : result (list (list f64)) :=
  match ys with
  | [] => Ok ary
  | val :: ys' =>
      ary' ←r setitem2_f64 num_labels ary i val f64_one;
      onehot_loop_f64 num_labels ary' (S i) ys'
  end.

Definition int_to_onehot_f64 (y : list Z) (num_labels : nat)
  : result (list (list f64)) :=
  let ary := np_zeros_f64 (length y) num_labels in
  onehot_loop_f64 num_labels ary 0 y.

(** *** Elementwise operators of numpy on [float64] arrays *)

Definition vec_zip_f64 (f : f64 → f64 → f64) (u v : list f64)
  : result (list f64) :=
  zip_result (λ x y, Ok (f x y)) (stretch (length v) u) (stretch (length u) v).

Definition mat_zip_f64 (f : f64 → f64 → f64) (a b : list (list f64))
  : result (list (list f64)) :=
  zip_result (vec_zip_f64 f) (stretch (length b) a) (stretch (length a) b).

Definition np_binop_f64 (f : f64 → f64 → f64) (x y : fvalue) : result fvalue :=
  match x, y with
  | FVec u, FVec v => rmap FVec (vec_zip_f64 f u v)
  | FVec u, FMat b => rmap FMat (mat_zip_f64 f [u] b)
  | FMat a, FVec v => rmap FMat (mat_zip_f64 f a [v])
  | FMat a, FMat b => rmap FMat (mat_zip_f64 f a b)
  | _, _ => Err TypeError
  end.

Definition np_map_f64 (f : f64 → f64) (x : fvalue) : result fvalue :=
  match x with
  | FVec v => Ok (FVec (f <$> v))
  | FMat m => Ok (FMat ((λ row : list f64, f <$> row) <$> m))
  | FNone => Err TypeError
  end.

(** One step of [np.maximum] and of [np.max]: [a] if [a >= b] or [a] is
    [nan], else [b]; a [nan] on either side comes out. *)
Definition f64_maximum (a b : f64) : f64 :=
  match a with
  | SpecFloat.S754_nan => a
  | _ => if f64_leb b a then a else b
  end.

(** [np.max(x)]; there is no largest element in an empty array. *)
Definition list_max_f64 (l : list f64) : result f64 :=
  match l with
  | [] => Err ValueError
  | x :: l' => Ok (foldl f64_maximum x l')
  end.

Definition np_max_f64 (x : fvalue) : result f64 :=
  match x with
  | FVec v => list_max_f64 v
  | FMat m => list_max_f64 (concat m)
  | FNone => Err TypeError
  end.

(** *** Cell 18: [rel_error] *)

Definition rel_error_f64 (x y : fvalue) : result f64 :=
  d ←r np_binop_f64 f64_sub x y;
  ad ←r np_map_f64 f64_abs d;
  ax ←r np_map_f64 f64_abs x;
  ay ←r np_map_f64 f64_abs y;
  s ←r np_binop_f64 f64_add ax ay;
  m ←r np_map_f64 (f64_maximum f64_1e_8) s;
  q ←r np_binop_f64 f64_div ad m;
  np_max_f64 q.

(** The quotient that [rel_error] forms for one pair of entries. *)
Definition rel_error1_f64 (x y : f64) : f64 :=
  f64_div (f64_abs (f64_sub x y))
    (f64_maximum f64_1e_8 (f64_add (f64_abs x) (f64_abs y))).

(** *** Cell 40: [mse_loss] *)

(** [a / n] for a Python float [a] and a Python int [n]. *)
Definition py_div_f64 (a : f64) (n : Z) : result f64 :=
  if decide (n = 0)%Z then Err ZeroDivisionError
  else Ok (f64_div a (f64_of_Z n)).

(** [a - p] for a 2-d array [a]. *)
Definition np_sub_f64 (a : list (list f64)) (p : fvalue)
  : result (list (list f64)) :=
  match p with
  | FMat b => mat_zip_f64 f64_sub a b
  | FVec v => mat_zip_f64 f64_sub a [v]
  | FNone => Err TypeError
  end.

Section Float64Loss.

(** [x.dot(y)] of two 1-d arrays.  numpy hands it to the BLAS library, which
    may add the products in any order, so it is a parameter here. *)
Context (dot : list f64 → list f64 → f64).

(** [np.linalg.norm(m)] of a 2-d array: [x = m.ravel(); sqrt(x.dot(x))]. *)
Definition np_linalg_norm_f64 (m : list (list f64)) : f64 :=
  let x := concat m in
  f64_sqrt (dot x x).

(** [x ** 2] of a [float64] scalar.  numpy hands it to the C library's
    [pow], whose last bit is not fixed by the standard, so it is a parameter
    too. *)
Context (pow2 : f64 → f64).

Definition mse_loss_f64 (targets : list Z) (probas : fvalue)
    (num_labels : nat) : result f64 :=
  onehot_targets ←r int_to_onehot_f64 targets num_labels;
  c ←r py_div_f64 f64_half (Z.of_nat (length targets));
  d ←r np_sub_f64 onehot_targets probas;
  Ok (f64_mul c (pow2 (np_linalg_norm_f64 d))).

End Float64Loss.

(** The correctly rounded square. *)
Definition pow2_mul (x : f64) : f64 := f64_mul x x.

(** The dot product that adds the products from left to right. *)
Definition dot_seq (x y : list f64) : f64 :=
  foldl (λ acc p, f64_add acc (f64_mul p.1 p.2)) f64_zero (zip x y).

(** The one-hot matrix of the labels as the specification describes it: row
    [i] holds [1.0] in column [y[i]] and [0.0] in every other column. *)
Definition spec_onehot_f64 (y : list Z) (num_labels : nat) : list (list f64) :=
  (λ v : Z, <[Z.to_nat v := f64_one]> (replicate num_labels f64_zero)) <$> y.


(** ** A concrete generator

    numpy's Mersenne Twister is not modelled.  To run the functions above on
    concrete inputs, this stand-in keeps a counter as its state: seeds must be
    32-bit, a draw fills the array with [loc], and a shuffle reverses. *)

Definition counter_RandomState (seed : Z) : result nat :=
  if decide (0 ≤ seed < 2 ^ 32)%Z then Ok (Z.to_nat seed) else Err ValueError.

Definition counter_normal (s : nat) (loc scale : R) (r c : nat)
  : matrix * nat :=
  (replicate r (replicate c loc), S s).

Definition counter_shuffle (s : nat) (l : list nat) : list nat * nat :=
  (rev l, S s).

(** Seventeen examples with one feature each, labelled 0 and 1 in turn. *)
Definition X17 : matrix := (λ i : nat, [INR i]) <$> seq 0 17.
Definition y17 : list Z := (λ i : nat, Z.of_nat (i mod 2)) <$> seq 0 17.


(** A hundred examples with one feature each, all labelled 0. *)
Definition X100 : matrix := replicate 100 [0%R].
Definition y100 : list Z := replicate 100 0%Z.

(** Labels for the same hundred examples that use both ends of the range
    numpy accepts as a column of ten: [-10] and [9]. *)
Definition y100_ends : list Z := replicate 50 (-10)%Z ++ replicate 50 9%Z.

(** A model with one feature, one hidden unit and ten classes, all of its
    parameters zero. *)
Definition zero_model : TwoLayerNN :=
  {| num_classes := 10;
     params := <["weight_in" := VMat [[0%R]]]>
                 (<["bias_in" := VVec [0%R]]>
                   (<["weight_out" := VMat [replicate 10 0%R]]>
                     (<["bias_out" := VVec (replicate 10 0%R)]> ∅))) |}.

(** * Properties *)

(** ** The label encoder *)

Example int_to_onehot_in_range :
  int_to_onehot [2; 0]%Z 3 = Ok [[0; 0; 1]; [1; 0; 0]]%R.
Proof. reflexivity. Qed.

Example int_to_onehot_from_the_end :
  int_to_onehot [-1]%Z 3 = Ok [[0; 0; 1]]%R.
Proof. reflexivity. Qed.

Example int_to_onehot_past_the_end :
  int_to_onehot [0; 3]%Z 3 = Err IndexError.
Proof. reflexivity. Qed.

Section OneHot.

Variable C : nat.

Let zero_row : vector := replicate C 0%R.

(** The row written for a label whose column is [j]. *)
Let hot (j : nat) : vector := <[j := 1%R]> zero_row.

Lemma norm_index_nonneg (v : Z) :
  (0 ≤ v < Z.of_nat C)%Z → norm_index C v = Ok (Z.to_nat v).
Proof. intros H. unfold norm_index. by rewrite decide_True. Qed.

Lemma norm_index_neg (v : Z) :
  (- Z.of_nat C ≤ v < 0)%Z → norm_index C v = Ok (Z.to_nat (Z.of_nat C + v)).
Proof.
  intros H. unfold norm_index.
  rewrite decide_False by lia. rewrite decide_True by lia.
  by rewrite Z.add_comm.
Qed.

Lemma norm_index_out (v : Z) :
  (Z.of_nat C ≤ v ∨ v < - Z.of_nat C)%Z → norm_index C v = Err IndexError.
Proof.
  intros H. unfold norm_index.
  rewrite decide_False by lia. by rewrite decide_False by lia.
Qed.

Lemma norm_index_bound (v : Z) (j : nat) : norm_index C v = Ok j → j < C.
Proof.
  unfold norm_index. repeat case_decide; intros [= <-]; lia.
Qed.

Lemma norm_index_exn (v : Z) (e : exn) :
  norm_index C v = Err e → e = IndexError.
Proof. unfold norm_index. repeat case_decide; congruence. Qed.

Lemma alter_middle {A : Type} (f : A → A) (pre : list A) (x : A)
    (rest : list A) :
  alter f (length pre) (pre ++ x :: rest) = pre ++ f x :: rest.
Proof. induction pre as [|d pre IH]; simpl; [done | by f_equal]. Qed.

(** The loop, started after the finished rows [pre], fills the next
    [length ys] zero rows and leaves the rest alone. *)
Lemma onehot_loop_fills (ys : list Z) (js : list nat) :
  Forall2 (λ v j, norm_index C v = Ok j) ys js →
  ∀ pre rest : matrix,
    onehot_loop C (pre ++ replicate (length ys) zero_row ++ rest)
      (length pre) ys
    = Ok (pre ++ (hot <$> js) ++ rest).
Proof.
  induction 1 as [|v j ys js Hv _ IH]; intros pre rest; [done|].
  cbn [onehot_loop length replicate app]. unfold setitem2.
  rewrite Hv. cbn [rbind]. rewrite alter_middle.
  specialize (IH (pre ++ [hot j]) rest).
  rewrite length_app, Nat.add_1_r in IH.
  rewrite <- !app_assoc in IH. exact IH.
Qed.

Lemma int_to_onehot_hot (y : list Z) (js : list nat) :
  Forall2 (λ v j, norm_index C v = Ok j) y js →
  int_to_onehot y C = Ok (hot <$> js).
Proof.
  intros H. unfold int_to_onehot, np_zeros.
  pose proof (onehot_loop_fills y js H [] []) as E.
  rewrite !app_nil_r in E. exact E.
Qed.

(** An entry outside [[-C, C)] stops the loop with [IndexError], wherever
    it stands and whatever the array holds. *)
Lemma onehot_loop_out (ys : list Z) :
  Exists (λ v, (Z.of_nat C ≤ v ∨ v < - Z.of_nat C)%Z) ys →
  ∀ (ary : matrix) (i : nat), onehot_loop C ary i ys = Err IndexError.
Proof.
  induction ys as [|v ys IH]; intros Hex ary i; [by inversion Hex|].
  cbn [onehot_loop]. unfold setitem2.
  destruct (norm_index C v) as [j|e] eqn:Hv; cbn [rbind].
  - apply IH. inversion Hex as [? ? Hbad|]; subst; [|done].
    rewrite (norm_index_out _ Hbad) in Hv. discriminate.
  - by rewrite (norm_index_exn _ _ Hv).
Qed.

(** [IndexError] is the only exception the loop can raise. *)
Lemma onehot_loop_exn (ys : list Z) (ary : matrix) (i : nat) (e : exn) :
  onehot_loop C ary i ys = Err e → e = IndexError.
Proof.
  revert ary i. induction ys as [|v ys IH]; intros ary i;
    cbn [onehot_loop]; [done|].
  unfold setitem2.
  destruct (norm_index C v) eqn:Hv; cbn [rbind]; [apply IH|].
  intros [= <-]. by eapply norm_index_exn.
Qed.

Lemma Rsum_zero_row (n : nat) : Rsum (replicate n 0%R) = 0%R.
Proof. induction n as [|n IH]; simpl; [done | rewrite IH; lra]. Qed.

Lemma hot_length (j : nat) : length (hot j) = C.
Proof. unfold hot, zero_row. by rewrite length_insert, length_replicate. Qed.

Lemma hot_sum (j : nat) : j < C → Rsum (hot j) = 1%R.
Proof.
  unfold hot, zero_row. revert j.
  induction C as [|n IH]; intros j Hj; [lia|].
  destruct j as [|j]; simpl.
  - rewrite Rsum_zero_row. lra.
  - rewrite IH by lia. lra.
Qed.

Lemma hot_at (j : nat) : j < C → hot j !! j = Some 1%R.
Proof.
  intros Hj. unfold hot, zero_row.
  apply list_lookup_insert_eq. by rewrite length_replicate.
Qed.

Lemma hot_off (j k : nat) : k < C → k ≠ j → hot j !! k = Some 0%R.
Proof.
  intros Hk Hne. unfold hot, zero_row.
  rewrite list_lookup_insert_ne by done. by apply lookup_replicate_2.
Qed.

(** What the encoder returns when every label has a column: one row per
    label, of length [C], summing to 1, with its 1 in the label's column and
    0 elsewhere. *)
Lemma int_to_onehot_rows (y : list Z) (col : Z → nat) :
  Forall (λ v, norm_index C v = Ok (col v)) y →
  ∃ ary : matrix,
    int_to_onehot y C = Ok ary ∧ length ary = length y ∧
    ∀ (i : nat) (v : Z), y !! i = Some v →
      ∃ row : vector,
        ary !! i = Some row ∧ length row = C ∧ Rsum row = 1%R ∧
        row !! col v = Some 1%R ∧
        ∀ k, k < C → k ≠ col v → row !! k = Some 0%R.
Proof.
  intros Hy. exists (hot <$> (col <$> y)). split; [|split].
  - apply int_to_onehot_hot. apply Forall2_fmap_r, Forall_Forall2_diag.
    exact Hy.
  - by rewrite !length_fmap.
  - intros i v Hi. exists (hot (col v)).
    rewrite !list_lookup_fmap, Hi. split; [done|].
    pose proof (proj1 (Forall_lookup _ _) Hy i v Hi) as Hv.
    apply norm_index_bound in Hv.
    auto using hot_length, hot_sum, hot_at, hot_off.
Qed.

End OneHot.

(** C4. For a label vector of length N whose entries all lie in [[0, C)],
    [int_to_onehot] returns an N×C array: row [i] has length [C], sums to
    exactly 1, holds 1 in column [labels[i]] and 0 in every other column. *)
Theorem C4_int_to_onehot_one_hot (y : list Z) (C : nat) :
  Forall (λ v, (0 ≤ v < Z.of_nat C)%Z) y →
  ∃ ary : matrix,
    int_to_onehot y C = Ok ary ∧ length ary = length y ∧
    ∀ (i : nat) (v : Z), y !! i = Some v →
      ∃ row : vector,
        ary !! i = Some row ∧ length row = C ∧ Rsum row = 1%R ∧
        row !! Z.to_nat v = Some 1%R ∧
        ∀ k, k < C → k ≠ Z.to_nat v → row !! k = Some 0%R.
Proof.
  intros Hy. apply (int_to_onehot_rows C y Z.to_nat).
  eapply Forall_impl; [exact Hy|]. intros v Hv. by apply norm_index_nonneg.
Qed.

Lemma C4_int_to_onehot_one_hot_witness :
  ∃ ary : matrix,
    int_to_onehot [2; 0]%Z 3 = Ok ary ∧ length ary = 2 ∧
    ∀ (i : nat) (v : Z), [2; 0]%Z !! i = Some v →
      ∃ row : vector,
        ary !! i = Some row ∧ length row = 3 ∧ Rsum row = 1%R ∧
        row !! Z.to_nat v = Some 1%R ∧
        ∀ k, k < 3 → k ≠ Z.to_nat v → row !! k = Some 0%R.
Proof.
  apply (C4_int_to_onehot_one_hot [2; 0]%Z 3).
  repeat (apply Forall_cons_2; [lia|]). apply Forall_nil_2.
Defined.

(** C10. For a label vector whose entries all lie in [[-C, -1]],
    [int_to_onehot] does not fail: it returns an N×C array whose row [i] has
    its single 1 in column [C + labels[i]] (the index counted from the end)
    and 0 elsewhere. *)
Theorem C10_int_to_onehot_negative_wraps (y : list Z) (C : nat) :
  Forall (λ v, (- Z.of_nat C ≤ v ≤ -1)%Z) y →
  ∃ ary : matrix,
    int_to_onehot y C = Ok ary ∧ length ary = length y ∧
    ∀ (i : nat) (v : Z), y !! i = Some v →
      ∃ row : vector,
        ary !! i = Some row ∧ length row = C ∧ Rsum row = 1%R ∧
        row !! Z.to_nat (Z.of_nat C + v) = Some 1%R ∧
        ∀ k, k < C → k ≠ Z.to_nat (Z.of_nat C + v) → row !! k = Some 0%R.
Proof.
  intros Hy.
  apply (int_to_onehot_rows C y (λ v, Z.to_nat (Z.of_nat C + v))).
  eapply Forall_impl; [exact Hy|]. intros v Hv. cbv beta in Hv. apply norm_index_neg. lia.
Qed.

Lemma C10_int_to_onehot_negative_wraps_witness :
  ∃ ary : matrix,
    int_to_onehot [-1; -3]%Z 3 = Ok ary ∧ length ary = 2 ∧
    ∀ (i : nat) (v : Z), [-1; -3]%Z !! i = Some v →
      ∃ row : vector,
        ary !! i = Some row ∧ length row = 3 ∧ Rsum row = 1%R ∧
        row !! Z.to_nat (Z.of_nat 3 + v) = Some 1%R ∧
        ∀ k, k < 3 → k ≠ Z.to_nat (Z.of_nat 3 + v) → row !! k = Some 0%R.
Proof.
  apply (C10_int_to_onehot_negative_wraps [-1; -3]%Z 3).
  repeat (apply Forall_cons_2; [lia|]). apply Forall_nil_2.
Defined.

(** C5, as stated, fails: the label [-1] is below 0, yet with three classes
    the encoder returns a row with its 1 in the last column. *)
Lemma C5_negative_label_not_rejected :
  Exists (λ v, (Z.of_nat 3 ≤ v ∨ v < 0)%Z) [-1]%Z ∧
  int_to_onehot [-1]%Z 3 = Ok [[0; 0; 1]]%R ∧
  ¬ (∀ (y : list Z) (C : nat),
       Exists (λ v, (Z.of_nat C ≤ v ∨ v < 0)%Z) y →
       ∃ e, int_to_onehot y C = Err e).
Proof.
  assert (Hex : Exists (λ v, (Z.of_nat 3 ≤ v ∨ v < 0)%Z) [-1]%Z).
  { constructor. lia. }
  split; [exact Hex|]. split; [reflexivity|].
  intros H. destruct (H _ _ Hex) as [e He]. discriminate He.
Qed.

(** C5, amended. A label vector with at least one entry that is [≥ C] or
    [< -C] makes [int_to_onehot] fail with [IndexError] instead of returning
    an array. *)
Theorem C5_int_to_onehot_out_of_range (y : list Z) (C : nat) :
  Exists (λ v, (Z.of_nat C ≤ v ∨ v < - Z.of_nat C)%Z) y →
  int_to_onehot y C = Err IndexError.
Proof. intros Hy. unfold int_to_onehot. by apply onehot_loop_out. Qed.

Lemma C5_int_to_onehot_out_of_range_witness :
  int_to_onehot [0; 3]%Z 3 = Err IndexError.
Proof.
  apply (C5_int_to_onehot_out_of_range [0; 3]%Z 3).
  apply Exists_cons_tl, Exists_cons_hd. lia.
Defined.

(** ** The mean-squared-error loss *)

Lemma stretch_same_length {A : Type} (l : list A) :
  stretch (length l) l = l.
Proof. by destruct l as [|x [|y l]]. Qed.

(** Without labels the division [0.5 / N] fails before anything is
    subtracted. *)
Lemma mse_loss_no_labels (probas : value) (C : nat) :
  mse_loss [] probas C = Err ZeroDivisionError.
Proof. reflexivity. Qed.

(** *** Signs of rounded results *)

(** Rounding keeps the sign it is given. *)
Lemma binary_round_aux_sign (mx ex : Z) (lx : SpecFloat.location) :
  f64_sign_clear (SpecFloat.binary_round_aux 53 1024 false mx ex lx) = true.
Proof.
  unfold SpecFloat.binary_round_aux.
  destruct (SpecFloat.shr_fexp 53 1024 mx ex lx) as [mrs' e'].
  destruct (SpecFloat.shr_fexp _ _ _ _ _) as [mrs'' e''].
  destruct (SpecFloat.shr_m mrs''); [done| |done].
  by destruct (_ <=? _)%Z.
Qed.

Lemma f64_mul_sign (x y : f64) :
  f64_sign_clear x = true → f64_sign_clear y = true →
  f64_sign_clear (f64_mul x y) = true.
Proof.
  destruct x as [[]|[]| |[] mx ex], y as [[]|[]| |[] my ey]; try done.
  intros _ _. apply binary_round_aux_sign.
Qed.






(** *** The encoder writing floats *)

Lemma onehot_loop_f64_fills (C : nat) (ys : list Z) (js : list nat) :
  Forall2 (λ v j, norm_index C v = Ok j) ys js →
  ∀ pre rest : list (list f64),
    onehot_loop_f64 C
      (pre ++ replicate (length ys) (replicate C f64_zero) ++ rest)
      (length pre) ys
    = Ok (pre ++ ((λ j : nat, <[j := f64_one]> (replicate C f64_zero)) <$> js)
              ++ rest).
Proof.
  induction 1 as [|v j ys js Hv _ IH]; intros pre rest; [done|].
  cbn [onehot_loop_f64 length replicate app]. unfold setitem2_f64.
  rewrite Hv. cbn [rbind]. rewrite alter_middle.
  specialize (IH (pre ++ [<[j := f64_one]> (replicate C f64_zero)]) rest).
  rewrite length_app, Nat.add_1_r in IH.
  rewrite <- !app_assoc in IH. exact IH.
Qed.

(** For labels in [[0, C)] the encoder returns the one-hot matrix of the
    labels. *)
Lemma int_to_onehot_f64_spec (y : list Z) (C : nat) :
  Forall (λ v, (0 ≤ v < Z.of_nat C)%Z) y →
  int_to_onehot_f64 y C = Ok (spec_onehot_f64 y C).
Proof.
  intros Hy. unfold int_to_onehot_f64, np_zeros_f64, spec_onehot_f64.
  pose proof (onehot_loop_f64_fills C y (Z.to_nat <$> y)) as E.
  specialize (E ltac:(apply Forall2_fmap_r, Forall_Forall2_diag;
    eapply Forall_impl; [exact Hy|]; intros v Hv; by apply norm_index_nonneg)
    [] []).
  rewrite !app_nil_r in E. cbn [app length] in E. rewrite E.
  by rewrite <- list_fmap_compose.
Qed.

Lemma spec_onehot_f64_shape (y : list Z) (C : nat) :
  Forall2 (λ (_ : Z) (row : list f64), length row = C) y (spec_onehot_f64 y C).
Proof.
  unfold spec_onehot_f64. apply Forall2_fmap_r, Forall_Forall2_diag, Forall_true.
  intros v. cbn [compose]. by rewrite length_insert, length_replicate.
Qed.

(** *** Arrays of one shape *)

Lemma vec_zip_f64_same_length (f : f64 → f64 → f64) (u v : list f64) :
  length u = length v → vec_zip_f64 f u v = Ok (zip_with f u v).
Proof.
  intros Hlen. unfold vec_zip_f64.
  rewrite <- Hlen at 1. rewrite Hlen at 2. rewrite !stretch_same_length.
  revert v Hlen. induction u as [|x u IH]; intros [|y v] [=]; [done|].
  cbn [zip_result rbind zip_with]. by rewrite IH.
Qed.

Lemma mat_zip_f64_same_shape (f : f64 → f64 → f64) (a b : list (list f64)) :
  Forall2 (λ r s : list f64, length r = length s) a b →
  mat_zip_f64 f a b = Ok (zip_with (zip_with f) a b).
Proof.
  intros Hshape. unfold mat_zip_f64.
  pose proof (Forall2_length _ _ _ Hshape) as Hlen.
  rewrite <- Hlen at 1. rewrite Hlen at 2. rewrite !stretch_same_length.
  clear Hlen. induction Hshape as [|r s a b Hrs _ IH]; [done|].
  cbn [zip_result zip_with].
  by rewrite (vec_zip_f64_same_length _ _ _ Hrs), IH.
Qed.

Lemma same_rows_shape (C : nat) (y : list Z) (a b : list (list f64)) :
  Forall2 (λ (_ : Z) (row : list f64), length row = C) y a →
  Forall2 (λ (_ : Z) (row : list f64), length row = C) y b →
  Forall2 (λ r s : list f64, length r = length s) a b.
Proof.
  intros Ha. revert b. induction Ha as [|v r y a Hr _ IH]; intros b Hb.
  - by inversion Hb.
  - inversion Hb as [|? s ? b' Hs Hb']; subst. constructor; [lia|]. by apply IH.
Qed.

(** *** Differences that vanish *)

Lemma f64_sub_diag (x : f64) :
  f64_is_finite x = true → f64_sub x x = f64_zero.
Proof.
  destruct x as [[]|[]| |s m e]; try done. intros _.
  unfold f64_sub, SpecFloat.SFsub. by rewrite Z.sub_diag.
Qed.




(** *** The two readings of the encoder agree *)

Lemma f64_to_R_one : f64_to_R f64_one = 1%R.
Proof.
  change f64_one with (SpecFloat.S754_finite false 4503599627370496 (-52)).
  cbn [f64_to_R]. unfold powerRZ. rewrite pow_IZR.
  change (2 ^ Z.of_nat (Pos.to_nat 52))%Z with 4503599627370496%Z.
  apply Rinv_r. apply not_0_IZR. lia.
Qed.

Lemma onehot_loop_f64_to_R (C : nat) (ys : list Z) (ary : list (list f64))
    (i : nat) :
  onehot_loop C ((λ row : list f64, f64_to_R <$> row) <$> ary) i ys
  = rmap (fmap (λ row : list f64, f64_to_R <$> row))
      (onehot_loop_f64 C ary i ys).
Proof.
  revert ary i. induction ys as [|v ys IH]; intros ary i; [done|].
  cbn [onehot_loop onehot_loop_f64]. unfold setitem2, setitem2_f64.
  destruct (norm_index C v) as [j|e]; [|done]. cbn [rbind].
  rewrite <- IH. f_equal.
  rewrite (list_fmap_alter (λ row : list f64, f64_to_R <$> row)
             (λ row : list f64, <[j := f64_one]> row)
             (λ row : vector, <[j := 1%R]> row)); [done|].
  apply Forall_true. intros row. by rewrite list_fmap_insert, f64_to_R_one.
Qed.

(** The encoder that writes floats returns the array of the encoder over the
    reals, entry for entry, and fails where it fails. *)
Lemma int_to_onehot_f64_to_R (y : list Z) (C : nat) :
  int_to_onehot y C
  = rmap (fmap (λ row : list f64, f64_to_R <$> row)) (int_to_onehot_f64 y C).
Proof.
  unfold int_to_onehot, int_to_onehot_f64. rewrite <- onehot_loop_f64_to_R.
  f_equal. unfold np_zeros, np_zeros_f64. by rewrite !fmap_replicate.
Qed.

(** Below, [rmap (λ _, ())] forgets the value of a result and keeps whether
    it returned, or the exception. *)
Lemma stretch_fmap {A B : Type} (h : A → B) (n : nat) (l : list A) :
  stretch n (h <$> l) = h <$> stretch n l.
Proof. destruct l as [|x [|y l]]; try done. cbn. by rewrite fmap_replicate. Qed.

Lemma zip_result_outcome {A A' B B' : Type} (h : A → A')
    (F : A' → A' → result B') (G : A → A → result B) (a b : list A) :
  (∀ x y, rmap (λ _, ()) (F (h x) (h y)) = rmap (λ _, ()) (G x y)) →
  rmap (λ _, ()) (zip_result F (h <$> a) (h <$> b))
  = rmap (λ _, ()) (zip_result G a b).
Proof.
  intros HFG. revert b. induction a as [|x a IH]; intros [|y b]; try done.
  cbn [fmap list_fmap zip_result]. specialize (HFG x y). specialize (IH b).
  cbn [fmap] in IH.
  destruct (F (h x) (h y)), (G x y); cbn [rbind rmap] in *; try done.
  destruct (zip_result F _ _), (zip_result G a b); try done.
Qed.

Lemma mat_sub_outcome (a b : list (list f64)) :
  rmap (λ _, ()) (mat_sub ((λ row : list f64, f64_to_R <$> row) <$> a)
                    ((λ row : list f64, f64_to_R <$> row) <$> b))
  = rmap (λ _, ()) (mat_zip_f64 f64_sub a b).
Proof.
  unfold mat_sub, mat_zip_f64. rewrite !length_fmap, !stretch_fmap.
  apply zip_result_outcome. intros r s.
  unfold vec_sub, vec_zip_f64. rewrite !length_fmap, !stretch_fmap.
  by apply zip_result_outcome.
Qed.

(** The two readings of [mse_loss] return on the same arguments and raise the
    same exception on the others. *)
Lemma mse_loss_outcome (dot : list f64 → list f64 → f64) (pow2 : f64 → f64)
    (y : list Z) (p : fvalue) (C : nat) :
  rmap (λ _, ()) (mse_loss y (fvalue_to_value p) C)
  = rmap (λ _, ()) (mse_loss_f64 dot pow2 y p C).
Proof.
  unfold mse_loss, mse_loss_f64, py_div, py_div_f64.
  rewrite int_to_onehot_f64_to_R.
  destruct (int_to_onehot_f64 y C) as [oh|]; [|done]. cbn [rmap rbind].
  case_decide; [done|]. cbn [rbind].
  assert (rmap (λ _, ()) (np_sub ((λ row : list f64, f64_to_R <$> row) <$> oh)
                            (fvalue_to_value p))
          = rmap (λ _, ()) (np_sub_f64 oh p)) as Hsub.
  { destruct p as [|v|m]; cbn [fvalue_to_value np_sub np_sub_f64]; [done|..].
    - apply (mat_sub_outcome oh [v]).
    - apply mat_sub_outcome. }
  cbn [fmap] in *.
  destruct (np_sub _ _), (np_sub_f64 oh p); cbn [rmap rbind] in *; congruence.
Qed.

(** *** The loss *)

Section MseLoss.

Context (dot : list f64 → list f64 → f64).
Context (pow2 : f64 → f64).

(** The dot product of zeros is [+0.0], in whatever order it is added up. *)
Hypothesis dot_zeros :
  ∀ k, dot (replicate k f64_zero) (replicate k f64_zero) = f64_zero.
(** What the C standard fixes of [pow(x, 2)]: it is [+0.0] at zero and never
    negative. *)
Hypothesis pow2_zero : pow2 f64_zero = f64_zero.
Hypothesis pow2_sign : ∀ x, f64_sign_clear (pow2 x) = true.

Lemma mse_loss_f64_same_shape (y : list Z) (C : nat)
    (scores : list (list f64)) :
  y ≠ [] →
  Forall (λ v, (0 ≤ v < Z.of_nat C)%Z) y →
  Forall2 (λ (_ : Z) (row : list f64), length row = C) y scores →
  mse_loss_f64 dot pow2 y (FMat scores) C
  = Ok (f64_mul (f64_div f64_half (f64_of_Z (Z.of_nat (length y))))
          (pow2 (np_linalg_norm_f64 dot
                   (zip_with (zip_with f64_sub) (spec_onehot_f64 y C)
                      scores)))).
Proof.
  intros Hne Hy Hshape. unfold mse_loss_f64, py_div_f64.
  rewrite (int_to_onehot_f64_spec _ _ Hy). cbn [rbind].
  assert (length y ≠ 0) as Hlen by (by destruct y).
  rewrite decide_False by lia. cbn [rbind np_sub_f64].
  rewrite mat_zip_f64_same_shape; [done|].
  eapply same_rows_shape; [apply spec_onehot_f64_shape | exact Hshape].
Qed.

Lemma mse_loss_f64_sign (c n : f64) :
  f64_sign_clear c = true →
  f64_sign_clear (f64_mul c (pow2 n)) = true.
Proof. intros Hc. by apply f64_mul_sign. Qed.




End MseLoss.




(** ** The mini-batch generator *)

Lemma range_len_batches (N B : nat) :
  0 < B ≤ N →
  Z.to_nat (range_len 0 (Z.of_nat N - Z.of_nat B + 1) (Z.of_nat B)) = N / B.
Proof.
  intros HB. unfold range_len.
  rewrite decide_True by lia. rewrite decide_True by lia.
  replace (Z.of_nat N - Z.of_nat B + 1 - 0 - 1)%Z
    with (Z.of_nat N + (-1) * Z.of_nat B)%Z by lia.
  rewrite Z.div_add by lia. rewrite <- Nat2Z.inj_div.
  assert (1 ≤ N / B) by (apply Nat.div_le_lower_bound; lia). lia.
Qed.

Lemma py_range_batches (N B : nat) :
  0 < B ≤ N →
  py_range 0 (Z.of_nat N - Z.of_nat B + 1) (Z.of_nat B)
  = Ok ((λ k : nat, Z.of_nat (k * B)) <$> seq 0 (N / B)).
Proof.
  intros HB. unfold py_range. rewrite decide_False by lia.
  rewrite range_len_batches by done. f_equal.
  apply list_fmap_ext. intros i k _. rewrite Nat2Z.inj_mul. lia.
Qed.

Lemma slice_bound_inside (len n : nat) :
  n ≤ len → slice_bound len (Z.of_nat n) = n.
Proof.
  intros Hn. unfold slice_bound. cbv zeta. repeat case_decide; lia.
Qed.

Lemma py_slice_inside {A : Type} (l : list A) (lo n : nat) :
  lo + n ≤ length l →
  py_slice l (Z.of_nat lo) (Z.of_nat lo + Z.of_nat n) = take n (drop lo l).
Proof.
  intros Hn. unfold py_slice. rewrite <- Nat2Z.inj_add.
  rewrite !slice_bound_inside by lia. f_equal. lia.
Qed.

Lemma take_idx_in_range {A : Type} (a : list A) (idx : list nat) :
  Forall (λ i, i < length a) idx →
  ∃ r : list A,
    take_idx a idx = Ok r ∧ Forall2 (λ i x, a !! i = Some x) idx r.
Proof.
  unfold take_idx. induction 1 as [|i idx Hi _ (r & Hr & Hall)].
  - by exists [].
  - destruct (lookup_lt_is_Some_2 a i Hi) as [x Hx].
    exists (x :: r). cbn [mapM_result]. rewrite Hx, Hr. by split; [|constructor].
Qed.

Lemma batch_fits (N B k : nat) : 0 < B → k < N / B → k * B + B ≤ N.
Proof.
  intros HB Hk. pose proof (Nat.Div0.mul_div_le N B). nia.
Qed.

(** Seventeen examples in batches of five: three batches, the first made of
    the examples 16, 15, 14, 13, 12 under the reversing shuffle. *)
Example minibatch_generator_17_5 :
  ∃ b0 b1 b2 : matrix * list Z,
    (minibatch_generator counter_shuffle 0 X17 y17 5).1
    = Ok [Ok b0; Ok b1; Ok b2] ∧
    b0.2 = [0; 1; 0; 1; 0]%Z ∧ length b1.2 = 5 ∧ length b2.2 = 5.
Proof. do 3 eexists. split; [reflexivity|]. by repeat split. Qed.

Section Minibatches.

Context {rng_state : Type}.
Context (shuffle : rng_state → list nat → list nat * rng_state).
Hypothesis shuffle_permutes : ∀ g l, (shuffle g l).1 ≡ₚ l.

(** A batch size of zero is refused when the generator starts. *)
Lemma minibatch_generator_zero_size (g : rng_state) (X : matrix)
    (y : list Z) :
  (minibatch_generator shuffle g X y 0).1 = Err ValueError.
Proof.
  unfold minibatch_generator. by destruct (shuffle g (seq 0 (length X))).
Qed.

(** C6. For a training set of N aligned examples and a batch size
    [0 < B ≤ N], one pass of [minibatch_generator] yields exactly
    [N / B] mini-batches; batch [k] holds exactly [B] examples, those at
    positions [k·B, ..., k·B + B − 1] of the shuffled permutation of
    [0..N−1]; the [N mod B] positions left after the last batch are not
    used, and no batch is padded. *)
Theorem C6_minibatch_generator_batches (g : rng_state) (X : matrix)
    (y : list Z) (B : nat) :
  0 < B ≤ length X →
  length y = length X →
  let perm := (shuffle g (seq 0 (length X))).1 in
  perm ≡ₚ seq 0 (length X) ∧
  length (drop (length X / B * B) perm) = length X mod B ∧
  ∃ gen : generator (matrix * list Z),
    (minibatch_generator shuffle g X y (Z.of_nat B)).1 = Ok gen ∧
    length gen = length X / B ∧
    ∀ k, k < length X / B →
      ∃ (Xb : matrix) (yb : list Z),
        gen !! k = Some (Ok (Xb, yb)) ∧
        length Xb = B ∧ length yb = B ∧
        let batch_idx := take B (drop (k * B) perm) in
        length batch_idx = B ∧
        Forall2 (λ i x, X !! i = Some x) batch_idx Xb ∧
        Forall2 (λ i v, y !! i = Some v) batch_idx yb.
Proof.
  intros HB Hy perm. pose proof (shuffle_permutes g (seq 0 (length X))) as Hperm.
  fold perm in Hperm. split; [exact Hperm|].
  assert (length perm = length X) as Hlen.
  { by rewrite (Permutation_length Hperm), length_seq. }
  assert (Forall (λ i, i < length X) perm) as Hbound.
  { rewrite Hperm. apply Forall_seq. lia. }
  split.
  { rewrite length_drop, Hlen, (Nat.mul_comm _ B).
    pose proof (Nat.div_mod_eq (length X) B). lia. }
  unfold minibatch_generator.
  destruct (shuffle g (seq 0 (length X))) as [perm' g'] eqn:Hsh.
  subst perm. cbn [fst] in *. rewrite Hlen.
  rewrite py_range_batches by done. cbn [rbind].
  eexists. split; [reflexivity|]. split.
  { by rewrite !length_fmap, length_seq. }
  intros k Hk. pose proof (batch_fits _ _ _ (proj1 HB) Hk) as Hfit.
  set (batch_idx := take B (drop (k * B) perm')).
  assert (length batch_idx = B) as Hidx.
  { unfold batch_idx. rewrite length_take, length_drop. lia. }
  assert (Forall (λ i, i < length X) batch_idx) as Hin.
  { unfold batch_idx. by apply Forall_take, Forall_drop. }
  destruct (take_idx_in_range X batch_idx Hin) as (Xb & HXb & HXall).
  rewrite <- Hy in Hin.
  destruct (take_idx_in_range y batch_idx Hin) as (yb & Hyb & Hyall).
  exists Xb, yb.
  rewrite !list_lookup_fmap, lookup_seq_lt by done.
  rewrite Nat.add_0_l. cbn [fmap option_fmap option_map].
  rewrite py_slice_inside by lia. fold batch_idx.
  rewrite HXb, Hyb. cbn [rbind]. split; [done|].
  rewrite <- (Forall2_length _ _ _ HXall), <- (Forall2_length _ _ _ Hyall).
  done.
Qed.

End Minibatches.

Lemma counter_shuffle_permutes (s : nat) (l : list nat) :
  (counter_shuffle s l).1 ≡ₚ l.
Proof. symmetry. apply Permutation_rev. Qed.

Lemma C6_minibatch_generator_batches_witness :
  let perm := (counter_shuffle 0 (seq 0 17)).1 in
  perm ≡ₚ seq 0 17 ∧
  length (drop 15 perm) = 2 ∧
  ∃ gen : generator (matrix * list Z),
    (minibatch_generator counter_shuffle 0 X17 y17 5).1 = Ok gen ∧
    length gen = 3 ∧
    ∀ k, k < 3 →
      ∃ (Xb : matrix) (yb : list Z),
        gen !! k = Some (Ok (Xb, yb)) ∧
        length Xb = 5 ∧ length yb = 5 ∧
        let batch_idx := take 5 (drop (k * 5) perm) in
        length batch_idx = 5 ∧
        Forall2 (λ i x, X17 !! i = Some x) batch_idx Xb ∧
        Forall2 (λ i v, y17 !! i = Some v) batch_idx yb.
Proof.
  apply (C6_minibatch_generator_batches counter_shuffle
           counter_shuffle_permutes 0 X17 y17 5).
  - simpl. lia.
  - reflexivity.
Defined.

(** ** Construction of the model *)

Section Init.

Context {rng_state : Type}.
Context (RandomState : Z → result rng_state).
Context (normal : rng_state → R → R → nat → nat → matrix * rng_state).

(** A seed that numpy rejects makes the constructor fail the same way,
    whatever the module-level generator holds. *)
Lemma TwoLayerNN_init_bad_seed (g : rng_state) (F H C : nat) (seed : Z)
    (e : exn) :
  RandomState seed = Err e →
  TwoLayerNN_init RandomState normal g F H C seed = Err e.
Proof. intros Hs. unfold TwoLayerNN_init. by rewrite Hs. Qed.

(** C9. Two constructions with the same dimensions and the same seed give
    the same model, whatever the state [g1], [g2] of the module-level
    generator at either call, and leave that state as it was.  The weights
    are the first two draws [normal(loc=0, scale=0.001)] of the stream
    seeded with [seed], of sizes [(F, H)] and [(H, C)]; both biases are
    all-zero vectors, of lengths [H] and [C]. *)
Theorem C9_init_determined_by_seed (g1 g2 st : rng_state) (F H C : nat)
    (seed : Z) :
  RandomState seed = Ok st →
  let draw1 := normal st 0 0.001 F H in
  let draw2 := normal draw1.2 0 0.001 H C in
  ∃ m : TwoLayerNN,
    TwoLayerNN_init RandomState normal g1 F H C seed = Ok (m, g1) ∧
    TwoLayerNN_init RandomState normal g2 F H C seed = Ok (m, g2) ∧
    num_classes m = C ∧
    params m !! "weight_in" = Some (VMat draw1.1) ∧
    params m !! "weight_out" = Some (VMat draw2.1) ∧
    params m !! "bias_in" = Some (VVec (replicate H 0%R)) ∧
    params m !! "bias_out" = Some (VVec (replicate C 0%R)) ∧
    dom (params m)
    = ({["weight_in"; "bias_in"; "weight_out"; "bias_out"]} : gset string).
Proof.
  intros Hs draw1 draw2. unfold TwoLayerNN_init. rewrite Hs. cbn [rbind].
  subst draw2 draw1.
  destruct (normal st 0 0.001 F H) as [w1 st1]. cbn [fst snd].
  destruct (normal st1 0 0.001 H C) as [w2 st2]. cbn [fst snd].
  eexists. split; [reflexivity|]. split; [reflexivity|].
  cbn [num_classes params]. repeat split.
Qed.

End Init.

Lemma C9_init_determined_by_seed_witness :
  let draw1 := counter_normal 123 0 0.001 4 3 in
  let draw2 := counter_normal draw1.2 0 0.001 3 2 in
  ∃ m : TwoLayerNN,
    TwoLayerNN_init counter_RandomState counter_normal 7 4 3 2 123
    = Ok (m, 7) ∧
    TwoLayerNN_init counter_RandomState counter_normal 8 4 3 2 123
    = Ok (m, 8) ∧
    num_classes m = 2 ∧
    params m !! "weight_in" = Some (VMat draw1.1) ∧
    params m !! "weight_out" = Some (VMat draw2.1) ∧
    params m !! "bias_in" = Some (VVec (replicate 3 0%R)) ∧
    params m !! "bias_out" = Some (VVec (replicate 2 0%R)) ∧
    dom (params m)
    = ({["weight_in"; "bias_in"; "weight_out"; "bias_out"]} : gset string).
Proof.
  apply (C9_init_determined_by_seed counter_RandomState counter_normal
           7 8 123 4 3 2 123).
  reflexivity.
Defined.

(** ** The layers whose bodies are left empty *)

(** C1 fails on the notebook. [affine_forward] does store [(X, W, b)] in its
    cache, but [affine_backward] returns [(None, None, None)] for every
    upstream gradient: not [dX = dY·Wᵀ], [dW = Xᵀ·dY], [db = column-sum(dY)]. *)
Theorem C1_affine_backward_returns_None (X W dY : matrix) (b : vector)
    (D M : nat) :
  let cache := (affine_forward (VMat X) (VMat W) (VVec b)).2 in
  cache = (VMat X, VMat W, VVec b) ∧
  affine_backward (VMat dY) cache = (VNone, VNone, VNone) ∧
  affine_backward (VMat dY) cache ≠ spec_affine_backward D M dY X W.
Proof. repeat split. discriminate. Qed.

(** C8 fails on the notebook. [relu_forward] returns [None] with the cache
    [X], and [relu_backward] returns [None]: neither [max(0, X)] nor the
    masked upstream gradient. *)
Theorem C8_relu_returns_None (X dY : matrix) :
  relu_forward (VMat X) = (VNone, VMat X) ∧
  relu_backward (VMat dY) (relu_forward (VMat X)).2 = VNone ∧
  (relu_forward (VMat X)).1 ≠ VMat (spec_relu_forward X) ∧
  relu_backward (VMat dY) (relu_forward (VMat X)).2
  ≠ VMat (spec_relu_backward dY X).
Proof. repeat split; discriminate. Qed.

(** ** The model's forward pass and the training loop *)

(** Without labels, [loss] looks the four parameters up, runs
    [affine_relu_forward] on the input and [affine_forward] on its output,
    and returns the latter's output as it is. *)
Lemma loss_predict_composition (self : TwoLayerNN) (X : value) :
  loss self X None
  = (w_in ←r getitem (params self) "weight_in";
     b_in ←r getitem (params self) "bias_in";
     w_out ←r getitem (params self) "weight_out";
     b_out ←r getitem (params self) "bias_out";
     Ok (Scores
           (affine_forward (affine_relu_forward X w_in b_in).1 w_out b_out).1)).
Proof.
  unfold loss.
  destruct (getitem (params self) "weight_in"); [|done].
  destruct (getitem (params self) "bias_in"); [|done].
  destruct (getitem (params self) "weight_out"); [|done].
  by destruct (getitem (params self) "bias_out").
Qed.

Lemma loss_predict_cases (self : TwoLayerNN) (X : value) :
  loss self X None = Ok (Scores VNone) ∨ loss self X None = Err KeyError.
Proof.
  rewrite loss_predict_composition. unfold getitem.
  destruct (params self !! "weight_in"); [|by right].
  destruct (params self !! "bias_in"); [|by right].
  destruct (params self !! "weight_out"); [|by right].
  destruct (params self !! "bias_out"); [by left|by right].
Qed.

Lemma loss_train_cases (self : TwoLayerNN) (X : value) (y : list Z) :
  loss self X (Some y) = Err NameError ∨ loss self X (Some y) = Err KeyError.
Proof.
  unfold loss, getitem.
  destruct (params self !! "weight_in"); [|by right].
  destruct (params self !! "bias_in"); [|by right].
  destruct (params self !! "weight_out"); [|by right].
  destruct (params self !! "bias_out"); [by left|by right].
Qed.

(** C7 fails on the notebook. [loss(X)] does run the fused forward and then
    the affine forward and returns the latter's output unchanged, but that
    output is [None]: for a model holding its four parameters the call
    returns [None], and for no model and no input does it return an array of
    scores. *)
Theorem C7_predict_returns_None (self : TwoLayerNN) (X : value)
    (w_in b_in w_out b_out : value) :
  loss (Build_TwoLayerNN (num_classes self)
          (<["weight_in" := w_in]> (<["bias_in" := b_in]>
            (<["weight_out" := w_out]> (<["bias_out" := b_out]>
              (params self)))))) X None
  = Ok (Scores VNone) ∧
  ∀ scores : matrix, loss self X None ≠ Ok (Scores (VMat scores)).
Proof.
  split.
  - rewrite loss_predict_composition. cbn [params]. unfold getitem.
    by repeat (rewrite lookup_insert_eq || (rewrite lookup_insert_ne by done)).
  - intros scores. by destruct (loss_predict_cases self X) as [-> | ->].
Qed.

(** In particular a freshly constructed model predicts [None]. *)
Lemma loss_after_init {rng_state : Type}
    (RandomState : Z → result rng_state)
    (normal : rng_state → R → R → nat → nat → matrix * rng_state)
    (g g' : rng_state) (F H C : nat) (seed : Z) (m : TwoLayerNN) (X : value) :
  TwoLayerNN_init RandomState normal g F H C seed = Ok (m, g') →
  loss m X None = Ok (Scores VNone).
Proof.
  unfold TwoLayerNN_init. destruct (RandomState seed) as [st|]; [|done].
  cbn [rbind]. destruct (normal st 0%R 0.001%R F H) as [w1 st1].
  destruct (normal st1 0%R 0.001%R H C) as [w2 st2]. intros [= <- _].
  reflexivity.
Qed.

Section Training.

Context {rng_state : Type}.
Context (shuffle : rng_state → list nat → list nat * rng_state).

Lemma train_minibatch_cases (learning_rate : R) (model : TwoLayerNN)
    (batch : matrix * list Z) :
  train_minibatch learning_rate model batch = Ok model ∨
  train_minibatch learning_rate model batch = Err IndexError.
Proof.
  unfold train_minibatch. destruct batch as [Xb yb].
  destruct (int_to_onehot yb 10) as [m|e] eqn:Hm; [by left|right].
  cbn [rbind]. f_equal. by eapply onehot_loop_exn.
Qed.

(** The loop over the mini-batches of an epoch hands the model back as it
    received it, unless a label stops it. *)
Lemma train_minibatches_keep_model (learning_rate : R) (model model' : TwoLayerNN)
    (gen : generator (matrix * list Z)) :
  for_each gen (train_minibatch learning_rate) model = Ok model' →
  model' = model.
Proof.
  induction gen as [|[batch|e] gen IH]; cbn [for_each rbind]; [congruence| |done].
  destruct (train_minibatch_cases learning_rate model batch) as [-> | ->];
    cbn [rbind]; [exact IH|done].
Qed.

(** The epoch's logging cannot succeed: with no batch of 100 examples [i]
    is unbound after the loop, and with one the forward pass hands [None]
    to [np.argmax]. *)
Lemma compute_mse_and_acc_raises (g : rng_state) (nnet : TwoLayerNN)
    (X : matrix) (y : list Z) (num_labels : nat) (minibatch_size : Z) :
  ∃ e, compute_mse_and_acc shuffle g nnet X y num_labels minibatch_size
       = Err e.
Proof.
  unfold compute_mse_and_acc.
  destruct (minibatch_generator shuffle g X y minibatch_size) as [[gen|e] g'];
    cbn [rbind]; [|by eexists].
  destruct gen as [|[[features targets]|e] gen]; cbn [for_each rbind];
    [by eexists| |by eexists].
  unfold compute_mse_and_acc_body.
  destruct (loss_predict_cases nnet (VMat features)) as [-> | ->];
    cbn [rbind np_argmax1]; by eexists.
Qed.

Lemma train_epoch_raises (minibatch_size : Z) (X_train : matrix)
    (y_train : list Z) (X_valid : matrix) (y_valid : list Z)
    (learning_rate : R) (s : train_state) :
  ∃ e, train_epoch shuffle minibatch_size X_train y_train X_valid y_valid
         learning_rate s = Err e.
Proof.
  unfold train_epoch.
  destruct (minibatch_generator shuffle (rng_after s) X_train y_train
              minibatch_size) as [[gen|e] g']; cbn [rbind]; [|by eexists].
  destruct (for_each gen (train_minibatch learning_rate) (trained s))
    as [model|e]; cbn [rbind]; [|by eexists].
  destruct (compute_mse_and_acc_raises g' model X_train y_train 10 100)
    as [e ->]. by eexists.
Qed.

(** C2 fails on the notebook. Processing a mini-batch computes the
    one-hot labels and nothing else: the model comes back with its four
    parameters untouched (or a label raises [IndexError]), [loss] with
    labels never returns gradients, and [train] returns the model it was
    given after zero epochs and raises after the first epoch's batches
    otherwise. *)
Theorem C2_train_never_updates (g : rng_state) (minibatch_size : Z)
    (model : TwoLayerNN) (X_train : matrix) (y_train : list Z)
    (X_valid : matrix) (y_valid : list Z) (num_epochs : nat)
    (learning_rate : R) (batch : matrix * list Z) :
  (train_minibatch learning_rate model batch = Ok model ∨
   train_minibatch learning_rate model batch = Err IndexError) ∧
  (loss model (VMat batch.1) (Some batch.2) = Err NameError ∨
   loss model (VMat batch.1) (Some batch.2) = Err KeyError) ∧
  (∀ s : train_state,
     train shuffle g minibatch_size model X_train y_train X_valid y_valid
       num_epochs learning_rate = Ok s →
     num_epochs = 0 ∧ params (trained s) = params model).
Proof.
  split; [apply train_minibatch_cases|]. split; [apply loss_train_cases|].
  intros s. unfold train. destruct num_epochs as [|n]; cbn [train_epochs].
  - by intros [= <-].
  - match goal with
    | |- context [train_epoch ?sh ?B ?X ?y ?Xv ?yv ?lr ?s0] =>
        destruct (train_epoch_raises B X y Xv yv lr s0) as [e ->]
    end. done.
Qed.

End Training.

(** * Further properties of the notebook's code *)

(** ** More on the mini-batch generator *)

Lemma take_idx_omap {A : Type} (a : list A) (idx : list nat) :
  Forall (λ i, i < length a) idx →
  take_idx a idx = Ok (omap (λ i, a !! i) idx) ∧
  length (omap (λ i, a !! i) idx) = length idx.
Proof.
  unfold take_idx. induction 1 as [|i idx Hi _ [IH1 IH2]]; [done|].
  destruct (lookup_lt_is_Some_2 a i Hi) as [x Hx].
  cbn [mapM_result omap list_omap]. rewrite Hx, IH1. cbn [rbind length].
  by rewrite IH2.
Qed.

Lemma zip_omap_lookup {A B : Type} (a : list A) (b : list B) (idx : list nat) :
  Forall (λ i, i < length a) idx →
  Forall (λ i, i < length b) idx →
  zip (omap (λ i, a !! i) idx) (omap (λ i, b !! i) idx)
  = omap (λ i, zip a b !! i) idx.
Proof.
  induction 1 as [|i idx Hi _ IH]; intros Hb; [done|].
  apply Forall_cons in Hb as [Hib Hb].
  destruct (lookup_lt_is_Some_2 a i Hi) as [x Hx].
  destruct (lookup_lt_is_Some_2 b i Hib) as [z Hz].
  cbn [omap list_omap]. rewrite lookup_zip_with, Hx, Hz. cbn.
  by rewrite IH.
Qed.

Lemma omap_lookup_seq {A : Type} (l pre : list A) :
  omap (λ i, (pre ++ l) !! i) (seq (length pre) (length l)) = l.
Proof.
  revert pre. induction l as [|x l IH]; intros pre; [done|].
  cbn [length seq omap list_omap]. rewrite list_lookup_middle by done.
  f_equal. specialize (IH (pre ++ [x])).
  rewrite length_app, Nat.add_1_r, <- app_assoc in IH. exact IH.
Qed.

Lemma chunks_concat {A : Type} (l : list A) (B n : nat) :
  concat ((λ k, take B (drop (k * B) l)) <$> seq 0 n) = take (n * B) l.
Proof.
  induction n as [|n IH]; [done|].
  rewrite seq_S, fmap_app, concat_app, IH. cbn [fmap list_fmap concat].
  rewrite app_nil_r, Nat.add_0_l, take_take_drop. f_equal. lia.
Qed.

Lemma omap_concat_fmap {A B K : Type} (f : A → option B) (c : K → list A)
    (ks : list K) :
  concat ((λ k, omap f (c k)) <$> ks) = omap f (concat (c <$> ks)).
Proof.
  induction ks as [|k ks IH]; [done|].
  cbn [fmap list_fmap concat]. rewrite omap_app. f_equal. exact IH.
Qed.

Section Epoch.

Context {rng_state : Type}.
Context (shuffle : rng_state → list nat → list nat * rng_state).
Hypothesis shuffle_permutes : ∀ g l, (shuffle g l).1 ≡ₚ l.

(** The generator written out: batch [k] gathers the rows and the labels at
    the positions [k·B, ..., k·B + B − 1] of the shuffled index array. *)
Lemma minibatch_generator_chunks (g : rng_state) (X : matrix) (y : list Z)
    (B : nat) :
  0 < B ≤ length X →
  length y = length X →
  let perm := (shuffle g (seq 0 (length X))).1 in
  (minibatch_generator shuffle g X y (Z.of_nat B)).1
  = Ok ((λ k, Ok (omap (λ i, X !! i) (take B (drop (k * B) perm)),
                  omap (λ i, y !! i) (take B (drop (k * B) perm))))
          <$> seq 0 (length X / B)).
Proof.
  intros HB Hy perm.
  pose proof (shuffle_permutes g (seq 0 (length X))) as Hperm.
  fold perm in Hperm.
  assert (length perm = length X) as Hlen.
  { by rewrite (Permutation_length Hperm), length_seq. }
  assert (Forall (λ i, i < length X) perm) as Hbound.
  { rewrite Hperm. apply Forall_seq. lia. }
  unfold minibatch_generator.
  destruct (shuffle g (seq 0 (length X))) as [perm' g'].
  subst perm. cbn [fst] in *. rewrite Hlen.
  rewrite py_range_batches by done. cbn [rbind]. f_equal.
  rewrite <- list_fmap_compose. apply list_fmap_ext. intros i k Hk.
  apply lookup_seq in Hk as [-> Hk]. cbn [compose Nat.add].
  pose proof (batch_fits _ _ _ (proj1 HB) Hk) as Hfit.
  rewrite py_slice_inside by lia.
  assert (Forall (λ i, i < length X) (take B (drop (i * B) perm'))) as Hin.
  { by apply Forall_take, Forall_drop. }
  destruct (take_idx_omap X _ Hin) as [-> _]. rewrite <- Hy in Hin.
  by destruct (take_idx_omap y _ Hin) as [-> _].
Qed.

Lemma minibatch_generator_batches (g : rng_state) (X : matrix) (y : list Z)
    (B : nat) :
  0 < B ≤ length X →
  length y = length X →
  let perm := (shuffle g (seq 0 (length X))).1 in
  (minibatch_generator shuffle g X y (Z.of_nat B)).1
  = Ok (Ok <$> ((λ k, (omap (λ i, X !! i) (take B (drop (k * B) perm)),
                       omap (λ i, y !! i) (take B (drop (k * B) perm))))
                  <$> seq 0 (length X / B))).
Proof.
  intros HB Hy perm. unfold perm.
  rewrite (minibatch_generator_chunks g X y B HB Hy).
  by rewrite <- list_fmap_compose.
Qed.

Lemma minibatch_generator_empty (g : rng_state) (X : matrix)
    (y : list Z) (B : Z) :
  (B < 0 ∨ Z.of_nat (length X) < B)%Z →
  (minibatch_generator shuffle g X y B).1 = Ok [].
Proof.
  intros HB. pose proof (shuffle_permutes g (seq 0 (length X))) as Hperm.
  apply Permutation_length in Hperm. rewrite length_seq in Hperm.
  unfold minibatch_generator.
  destruct (shuffle g (seq 0 (length X))) as [perm g']. cbn [fst] in *.
  rewrite Hperm. unfold py_range, range_len.
  rewrite decide_False by lia.
  destruct HB as [HB|HB].
  - rewrite decide_False by lia. by rewrite decide_False by lia.
  - rewrite decide_True by lia. by rewrite decide_False by lia.
Qed.

(** X2. One epoch draws without replacement and keeps rows and labels together:
    the (row, label) pairs of all batches, with the [N mod B] pairs that are
    left over, are a rearrangement of the data set. *)
Theorem minibatch_generator_partition (g : rng_state) (X : matrix)
    (y : list Z) (B : nat) :
  0 < B ≤ length X →
  length y = length X →
  ∃ (batches : list (matrix * list Z)) (dropped : list (vector * Z)),
    (minibatch_generator shuffle g X y (Z.of_nat B)).1 = Ok (Ok <$> batches) ∧
    length batches = length X / B ∧
    length dropped = length X mod B ∧
    concat ((λ b : matrix * list Z, zip b.1 b.2) <$> batches) ++ dropped
    ≡ₚ zip X y.
Proof.
  intros HB Hy.
  pose proof (minibatch_generator_chunks g X y B HB Hy) as Hgen.
  cbv zeta in Hgen.
  pose proof (shuffle_permutes g (seq 0 (length X))) as Hperm.
  set (perm := (shuffle g (seq 0 (length X))).1) in *.
  assert (length perm = length X) as Hlen.
  { by rewrite (Permutation_length Hperm), length_seq. }
  assert (Forall (λ i, i < length X) perm) as Hbound.
  { rewrite Hperm. apply Forall_seq. lia. }
  assert (length (zip X y) = length X) as Hzip.
  { rewrite length_zip_with. lia. }
  exists ((λ k, (omap (λ i, X !! i) (take B (drop (k * B) perm)),
                 omap (λ i, y !! i) (take B (drop (k * B) perm))))
            <$> seq 0 (length X / B)),
    (omap (λ i, zip X y !! i) (drop (length X / B * B) perm)).
  split; [by rewrite Hgen, <- list_fmap_compose|].
  split; [by rewrite length_fmap, length_seq|]. split.
  - assert (Forall (λ i, i < length (zip X y))
              (drop (length X / B * B) perm)) as Hin.
    { rewrite Hzip. by apply Forall_drop. }
    destruct (take_idx_omap (zip X y) _ Hin) as [_ ->].
    rewrite length_drop, Hlen, (Nat.mul_comm _ B).
    pose proof (Nat.div_mod_eq (length X) B). lia.
  - rewrite <- list_fmap_compose.
    rewrite (list_fmap_ext _
               (λ k, omap (λ i, zip X y !! i) (take B (drop (k * B) perm)))).
    2:{ intros i k _. cbn [compose fst snd]. apply zip_omap_lookup.
        - by apply Forall_take, Forall_drop.
        - rewrite Hy. by apply Forall_take, Forall_drop. }
    rewrite (omap_concat_fmap _ (λ k, take B (drop (k * B) perm))).
    rewrite chunks_concat, <- omap_app, take_drop, Hperm, <- Hzip.
    pose proof (omap_lookup_seq (zip X y) []) as E. cbn [app length] in E.
    by rewrite E.
Qed.

End Epoch.

(** ** The forward pass and its parameters *)

Lemma loss_with_params (self : TwoLayerNN) (X : value) :
  Forall (λ k, is_Some (params self !! k)) param_names →
  loss self X None = Ok (Scores VNone) ∧
  ∀ y, loss self X (Some y) = Err NameError.
Proof.
  unfold param_names. rewrite !Forall_cons.
  intros ([a Ha] & [b Hb] & [c Hc] & [d Hd] & _).
  unfold loss, getitem. by rewrite Ha, Hb, Hc, Hd.
Qed.

(** X7. [loss] raises [KeyError] exactly when one of the four parameters is
    missing from [self.params], with or without labels and whatever the
    input. *)
Theorem loss_KeyError_iff_missing (self : TwoLayerNN) (X : value)
    (y : option (list Z)) :
  loss self X y = Err KeyError ↔
  Exists (λ k, params self !! k = None) param_names.
Proof.
  unfold param_names, loss, getitem. rewrite !Exists_cons, Exists_nil.
  destruct y;
    destruct (params self !! "weight_in"), (params self !! "bias_in"),
      (params self !! "weight_out"), (params self !! "bias_out");
    cbn [rbind affine_relu_forward affine_forward relu_forward];
    intuition congruence.
Qed.

(** ** The evaluation loop *)

Section Evaluation.

Context {rng_state : Type}.
Context (shuffle : rng_state → list nat → list nat * rng_state).
Hypothesis shuffle_permutes : ∀ g l, (shuffle g l).1 ≡ₚ l.

(** X3. With fewer examples than the batch size (or a negative batch size) the
    evaluation loop never runs and the function raises [UnboundLocalError]
    at [mse/(i+1)] instead of returning metrics. *)
Theorem compute_mse_and_acc_no_batch (g : rng_state) (nnet : TwoLayerNN)
    (X : matrix) (y : list Z) (num_labels : nat) (B : Z) :
  (B < 0 ∨ Z.of_nat (length X) < B)%Z →
  compute_mse_and_acc shuffle g nnet X y num_labels B = Err UnboundLocalError.
Proof.
  intros HB.
  pose proof (minibatch_generator_empty shuffle shuffle_permutes g X y B HB)
    as Hgen.
  unfold compute_mse_and_acc.
  destruct (minibatch_generator shuffle g X y B) as [gen g'].
  cbn [fst] in Hgen. by subst gen.
Qed.

Lemma compute_mse_and_acc_first_batch (g : rng_state) (nnet : TwoLayerNN)
    (X : matrix) (y : list Z) (num_labels B : nat) :
  0 < B ≤ length X →
  length y = length X →
  Forall (λ k, is_Some (params nnet !! k)) param_names →
  compute_mse_and_acc shuffle g nnet X y num_labels (Z.of_nat B)
  = Err AxisError.
Proof.
  intros HB Hy Hp.
  pose proof (minibatch_generator_chunks shuffle shuffle_permutes g X y B HB Hy)
    as Hgen. cbv zeta in Hgen.
  unfold compute_mse_and_acc.
  destruct (minibatch_generator shuffle g X y (Z.of_nat B)) as [gen g'].
  cbn [fst] in Hgen. subst gen.
  destruct (length X / B) as [|n] eqn:Hn.
  { apply Nat.div_small_iff in Hn; lia. }
  cbn [seq fmap list_fmap rbind for_each]. unfold compute_mse_and_acc_body.
  by destruct (loss_with_params nnet (VMat (omap (λ i, X !! i)
                 (take B (drop (0 * B) (shuffle g (seq 0 (length X))).1))))
                 Hp) as [-> _].
Qed.

End Evaluation.

(** ** The training loop *)

Lemma int_to_onehot_total (y : list Z) (C : nat) :
  Forall (λ v, (- Z.of_nat C ≤ v < Z.of_nat C)%Z) y →
  ∃ ary : matrix, int_to_onehot y C = Ok ary.
Proof.
  intros Hy.
  destruct (int_to_onehot_rows C y
              (λ v, if decide (0 ≤ v)%Z then Z.to_nat v
                    else Z.to_nat (Z.of_nat C + v))) as (ary & Hary & _).
  - eapply Forall_impl; [exact Hy|]. intros v Hv. cbv beta in Hv.
    case_decide; [apply norm_index_nonneg|apply norm_index_neg]; lia.
  - by exists ary.
Qed.

Lemma train_minibatch_valid (learning_rate : R) (model : TwoLayerNN)
    (Xb : matrix) (yb : list Z) :
  Forall (λ v, (-10 ≤ v < 10)%Z) yb →
  train_minibatch learning_rate model (Xb, yb) = Ok model.
Proof.
  intros Hy. unfold train_minibatch.
  by destruct (int_to_onehot_total yb 10 Hy) as [ary ->].
Qed.

Lemma train_minibatch_invalid (learning_rate : R) (model : TwoLayerNN)
    (Xb : matrix) (yb : list Z) :
  Exists (λ v, (10 ≤ v ∨ v < -10)%Z) yb →
  train_minibatch learning_rate model (Xb, yb) = Err IndexError.
Proof.
  intros Hy. unfold train_minibatch, int_to_onehot.
  by rewrite (onehot_loop_out 10 yb Hy).
Qed.

Lemma for_each_train_valid (learning_rate : R) (model : TwoLayerNN)
    (batches : list (matrix * list Z)) :
  Forall (λ b, Forall (λ v, (-10 ≤ v < 10)%Z) b.2) batches →
  for_each (Ok <$> batches) (train_minibatch learning_rate) model = Ok model.
Proof.
  induction 1 as [|[Xb yb] batches Hb _ IH]; [done|].
  cbn [fmap list_fmap for_each rbind].
  by rewrite (train_minibatch_valid _ _ _ _ Hb).
Qed.

Lemma for_each_train_invalid (learning_rate : R) (model : TwoLayerNN)
    (batches : list (matrix * list Z)) :
  Exists (λ b, Exists (λ v, (10 ≤ v ∨ v < -10)%Z) b.2) batches →
  for_each (Ok <$> batches) (train_minibatch learning_rate) model
  = Err IndexError.
Proof.
  induction 1 as [[Xb yb] batches Hb|[Xb yb] batches _ IH];
    cbn [fmap list_fmap for_each rbind].
  - by rewrite (train_minibatch_invalid _ _ _ _ Hb).
  - by destruct (train_minibatch_cases learning_rate model (Xb, yb))
      as [-> | ->].
Qed.

Section Run.

Context {rng_state : Type}.
Context (shuffle : rng_state → list nat → list nat * rng_state).
Hypothesis shuffle_permutes : ∀ g l, (shuffle g l).1 ≡ₚ l.

Lemma train_first_epoch (g : rng_state) (B : Z) (model : TwoLayerNN)
    (X_train : matrix) (y_train : list Z) (X_valid : matrix)
    (y_valid : list Z) (n : nat) (learning_rate : R) (e : exn) :
  train_epoch shuffle B X_train y_train X_valid y_valid learning_rate
    {| epoch_loss := []; epoch_train_acc := []; epoch_valid_acc := [];
       trained := model; rng_after := g |} = Err e →
  train shuffle g B model X_train y_train X_valid y_valid (S n) learning_rate
  = Err e.
Proof. intros He. unfold train. cbn [train_epochs]. by rewrite He. Qed.

(** With labels that all have a column among ten, the mini-batch loop of an
    epoch hands the model on unchanged. *)
Lemma train_batches_valid (g : rng_state) (B : nat) (model : TwoLayerNN)
    (X : matrix) (y : list Z) (learning_rate : R) :
  0 < B →
  length y = length X →
  Forall (λ v, (-10 ≤ v < 10)%Z) y →
  ∃ gen,
    (minibatch_generator shuffle g X y (Z.of_nat B)).1 = Ok gen ∧
    for_each gen (train_minibatch learning_rate) model = Ok model.
Proof.
  intros HB Hy Hvalid. destruct (decide (B ≤ length X)) as [Hle|Hgt].
  - pose proof (minibatch_generator_batches shuffle shuffle_permutes g X y B
                  (conj HB Hle) Hy) as Hgen. cbv zeta in Hgen.
    eexists. split; [exact Hgen|]. apply for_each_train_valid.
    apply Forall_fmap, Forall_forall. intros k _. cbn [compose snd].
    apply Forall_forall. intros v Hv.
    apply list_elem_of_omap in Hv as (i & _ & Hi).
    apply list_elem_of_lookup_2 in Hi.
    by apply (proj1 (Forall_forall _ _) Hvalid).
  - exists []. split; [|done].
    apply (minibatch_generator_empty shuffle shuffle_permutes). lia.
Qed.

(** When the batch size divides the number of examples, a label without a
    column among ten reaches the loop in some batch and stops it. *)
Lemma train_batches_invalid (g : rng_state) (B : nat) (model : TwoLayerNN)
    (X : matrix) (y : list Z) (learning_rate : R) :
  0 < B ≤ length X →
  length X mod B = 0 →
  length y = length X →
  Exists (λ v, (10 ≤ v ∨ v < -10)%Z) y →
  ∃ gen,
    (minibatch_generator shuffle g X y (Z.of_nat B)).1 = Ok gen ∧
    for_each gen (train_minibatch learning_rate) model = Err IndexError.
Proof.
  intros HB Hdiv Hy Hbad.
  pose proof (minibatch_generator_batches shuffle shuffle_permutes g X y B
                HB Hy) as Hgen. cbv zeta in Hgen.
  pose proof (shuffle_permutes g (seq 0 (length X))) as Hperm.
  set (perm := (shuffle g (seq 0 (length X))).1) in *.
  eexists. split; [exact Hgen|]. apply for_each_train_invalid.
  apply Exists_exists in Hbad as (v & Hv & Hvbad).
  apply list_elem_of_lookup in Hv as [i Hi].
  assert (i ∈ perm) as Hin.
  { rewrite Hperm. apply elem_of_seq. apply lookup_lt_Some in Hi. lia. }
  assert (length X / B * B = length X) as Hfull.
  { pose proof (Nat.div_mod_eq (length X) B). lia. }
  rewrite <- (take_ge perm (length X / B * B)) in Hin.
  2:{ rewrite Hfull, (Permutation_length Hperm), length_seq. done. }
  rewrite <- chunks_concat in Hin.
  apply list_elem_of_In, in_concat in Hin as (chunk & Hchunk & Hi').
  apply list_elem_of_In, list_elem_of_fmap in Hchunk as (k & -> & Hk).
  apply list_elem_of_In in Hi'.
  apply Exists_fmap, Exists_exists. exists k. split; [done|].
  cbn [compose snd]. apply Exists_exists. exists v. split; [|done].
  apply list_elem_of_omap. by exists i.
Qed.

End Run.

Section RunOutcomes.

Context {rng_state : Type}.
Context (shuffle : rng_state → list nat → list nat * rng_state).
Hypothesis shuffle_permutes : ∀ g l, (shuffle g l).1 ≡ₚ l.

(** X1. A batch size that is negative, or larger than the data set, is not an
    error: the generator yields nothing. *)
Theorem minibatch_generator_yields_nothing (g : rng_state) (X : matrix)
    (y : list Z) (B : Z) :
  (B < 0 ∨ Z.of_nat (length X) < B)%Z →
  (minibatch_generator shuffle g X y B).1 = Ok [].
Proof. apply minibatch_generator_empty, shuffle_permutes. Qed.

(** X4. With at least one full batch of aligned examples and a model that holds
    its four parameters, the evaluation raises [AxisError] in its first
    turn: the forward pass returns [None], and [np.argmax(None, axis=1)]
    fails. *)
Theorem compute_mse_and_acc_raises_AxisError (g : rng_state)
    (nnet : TwoLayerNN) (X : matrix) (y : list Z) (num_labels B : nat) :
  0 < B ≤ length X →
  length y = length X →
  Forall (λ k, is_Some (params nnet !! k)) param_names →
  compute_mse_and_acc shuffle g nnet X y num_labels (Z.of_nat B)
  = Err AxisError.
Proof. apply compute_mse_and_acc_first_batch, shuffle_permutes. Qed.

(** X5. A run of one epoch or more on at least 100 aligned examples whose labels
    all lie in [[-10, 10)] raises [AxisError]: the mini-batch loop passes,
    and the logging of the first epoch fails. *)
Theorem train_raises_AxisError (g : rng_state) (B : nat) (model : TwoLayerNN)
    (X_train : matrix) (y_train : list Z) (X_valid : matrix)
    (y_valid : list Z) (n : nat) (learning_rate : R) :
  0 < B →
  100 ≤ length X_train →
  length y_train = length X_train →
  Forall (λ v, (-10 ≤ v < 10)%Z) y_train →
  Forall (λ k, is_Some (params model !! k)) param_names →
  train shuffle g (Z.of_nat B) model X_train y_train X_valid y_valid (S n)
    learning_rate = Err AxisError.
Proof.
  intros HB HN Hy Hvalid Hp. apply train_first_epoch. unfold train_epoch.
  cbn [rng_after trained].
  destruct (train_batches_valid shuffle shuffle_permutes g B model X_train
              y_train learning_rate HB Hy Hvalid) as (gen & Hgen & Hfor).
  destruct (minibatch_generator shuffle g X_train y_train (Z.of_nat B))
    as [gen' g'].
  cbn [fst] in Hgen. subst gen'. cbn [rbind]. rewrite Hfor. cbn [rbind].
  change 100%Z with (Z.of_nat 100).
  rewrite (compute_mse_and_acc_first_batch shuffle shuffle_permutes);
    [done|lia|done|done].
Qed.

(** X6. [train] encodes the labels with ten classes, whatever the model: when
    the batch size divides the number of examples, one label outside
    [[-10, 10)] makes the first epoch raise [IndexError]. *)
Theorem train_raises_IndexError (g : rng_state) (B : nat) (model : TwoLayerNN)
    (X_train : matrix) (y_train : list Z) (X_valid : matrix)
    (y_valid : list Z) (n : nat) (learning_rate : R) :
  0 < B ≤ length X_train →
  length X_train mod B = 0 →
  length y_train = length X_train →
  Exists (λ v, (10 ≤ v ∨ v < -10)%Z) y_train →
  train shuffle g (Z.of_nat B) model X_train y_train X_valid y_valid (S n)
    learning_rate = Err IndexError.
Proof.
  intros HB Hdiv Hy Hbad. apply train_first_epoch. unfold train_epoch.
  cbn [rng_after trained].
  destruct (train_batches_invalid shuffle shuffle_permutes g B model X_train
              y_train learning_rate HB Hdiv Hy Hbad) as (gen & Hgen & Hfor).
  destruct (minibatch_generator shuffle g X_train y_train (Z.of_nat B))
    as [gen' g'].
  cbn [fst] in Hgen. subst gen'. cbn [rbind]. by rewrite Hfor.
Qed.

End RunOutcomes.

Lemma minibatch_generator_partition_witness :
  ∃ (batches : list (matrix * list Z)) (dropped : list (vector * Z)),
    (minibatch_generator counter_shuffle 0 X17 y17 5).1 = Ok (Ok <$> batches) ∧
    length batches = 3 ∧
    length dropped = 2 ∧
    concat ((λ b : matrix * list Z, zip b.1 b.2) <$> batches) ++ dropped
    ≡ₚ zip X17 y17.
Proof.
  apply (minibatch_generator_partition counter_shuffle
           counter_shuffle_permutes 0 X17 y17 5).
  - simpl. lia.
  - reflexivity.
Defined.

Lemma minibatch_generator_yields_nothing_witness :
  (minibatch_generator counter_shuffle 0 X17 y17 18).1 = Ok [].
Proof.
  apply (minibatch_generator_yields_nothing counter_shuffle
           counter_shuffle_permutes 0 X17 y17 18).
  right. simpl. lia.
Defined.

Lemma compute_mse_and_acc_no_batch_witness :
  compute_mse_and_acc counter_shuffle 0 zero_model X17 y17 10 100
  = Err UnboundLocalError.
Proof.
  apply (compute_mse_and_acc_no_batch counter_shuffle
           counter_shuffle_permutes 0 zero_model X17 y17 10 100).
  right. simpl. lia.
Defined.

Lemma zero_model_has_params :
  Forall (λ k, is_Some (params zero_model !! k)) param_names.
Proof. repeat (apply Forall_cons_2; [by eexists|]). apply Forall_nil_2. Qed.

Lemma compute_mse_and_acc_raises_AxisError_witness :
  compute_mse_and_acc counter_shuffle 0 zero_model X100 y100 10 (Z.of_nat 100)
  = Err AxisError.
Proof.
  apply (compute_mse_and_acc_raises_AxisError counter_shuffle
           counter_shuffle_permutes 0 zero_model X100 y100 10 100).
  - simpl. lia.
  - reflexivity.
  - exact zero_model_has_params.
Defined.

(** With a batch size of 50 the generator yields two mini-batches of the
    hundred examples, so the loop of [train] encodes both halves of the
    labels. *)
Example minibatch_generator_two_batches :
  match (minibatch_generator counter_shuffle 0 X100 y100_ends 50).1 with
  | Ok gen => length gen = 2
  | Err _ => False
  end.
Proof. by vm_compute. Qed.

Lemma train_raises_AxisError_witness :
  train counter_shuffle 0 (Z.of_nat 50) zero_model X100 y100_ends X17 y17 1 0.1
  = Err AxisError.
Proof.
  apply (train_raises_AxisError counter_shuffle counter_shuffle_permutes
           0 50 zero_model X100 y100_ends X17 y17 0 0.1%R).
  - lia.
  - simpl. lia.
  - reflexivity.
  - apply Forall_app_2; apply Forall_replicate; lia.
  - exact zero_model_has_params.
Defined.

Lemma train_raises_IndexError_witness :
  train counter_shuffle 0 (Z.of_nat 1) zero_model [[0]; [0]]%R [3; 12]%Z
    X17 y17 1 0.1 = Err IndexError.
Proof.
  apply (train_raises_IndexError counter_shuffle counter_shuffle_permutes
           0 1 zero_model [[0]; [0]]%R [3; 12]%Z X17 y17 0 0.1%R).
  - simpl. lia.
  - reflexivity.
  - reflexivity.
  - apply Exists_cons_tl, Exists_cons_hd. lia.
Defined.

(** ** More on the loss *)

Lemma onehot_loop_shape (C : nat) (ys : list Z) :
  ∀ (ary m : matrix) (i : nat),
    onehot_loop C ary i ys = Ok m →
    length m = length ary ∧
    (Forall (λ row : vector, length row = C) ary →
     Forall (λ row : vector, length row = C) m).
Proof.
  induction ys as [|v ys IH]; intros ary m i; cbn [onehot_loop].
  - by intros [= <-].
  - unfold setitem2. destruct (norm_index C v) as [j|]; [|done]. cbn [rbind].
    intros Hm. apply IH in Hm as [Hlen Hrows].
    rewrite length_alter in Hlen. split; [done|]. intros Hary. apply Hrows.
    apply Forall_alter; [done|]. intros row _ Hrow.
    by rewrite length_insert.
Qed.

Lemma int_to_onehot_shape_any (y : list Z) (C : nat) (m : matrix) :
  int_to_onehot y C = Ok m →
  length m = length y ∧ Forall (λ row : vector, length row = C) m.
Proof.
  unfold int_to_onehot, np_zeros. intros Hm.
  apply onehot_loop_shape in Hm as [Hlen Hrows].
  rewrite length_replicate in Hlen. split; [done|]. apply Hrows.
  apply Forall_replicate, length_replicate.
Qed.

Lemma stretch_one {A : Type} (l : list A) : stretch 1 l = l.
Proof. by destruct l as [|x [|y l]]. Qed.

Lemma stretch_replicate {A : Type} (n : nat) (x : A) :
  stretch n (replicate n x) = replicate n x.
Proof. by destruct n as [|[|n]]. Qed.

(** X9. A label without a column stops [mse_loss] with [IndexError] before the
    scores are looked at. *)
Theorem mse_loss_label_out_of_range (targets : list Z) (probas : value)
    (C : nat) :
  Exists (λ v, (Z.of_nat C ≤ v ∨ v < - Z.of_nat C)%Z) targets →
  mse_loss targets probas C = Err IndexError.
Proof.
  intros Hbad. unfold mse_loss, int_to_onehot.
  by rewrite (onehot_loop_out C targets Hbad).
Qed.

Lemma mse_loss_label_out_of_range_witness :
  mse_loss [0; 10]%Z VNone 10 = Err IndexError.
Proof.
  apply (mse_loss_label_out_of_range [0; 10]%Z VNone 10).
  apply Exists_cons_tl, Exists_cons_hd. lia.
Defined.

(** X10. What the forward pass returns cannot be scored: with labels that the
    encoder accepts, [mse_loss(y, model.loss(X))] raises [TypeError] at the
    subtraction. *)
Theorem mse_loss_of_forward_pass (self : TwoLayerNN) (X p : value)
    (y : list Z) (C : nat) :
  y ≠ [] →
  Forall (λ v, (- Z.of_nat C ≤ v < Z.of_nat C)%Z) y →
  loss self X None = Ok (Scores p) →
  mse_loss y p C = Err TypeError.
Proof.
  intros Hne Hy Hp.
  destruct (loss_predict_cases self X) as [E|E]; rewrite E in Hp; [|done].
  injection Hp as <-. unfold mse_loss, py_div.
  destruct (int_to_onehot_total y C Hy) as [ary ->]. cbn [rbind].
  rewrite decide_False; [done|]. destruct y; [done|]. cbn [length]. lia.
Qed.

Lemma mse_loss_of_forward_pass_witness :
  mse_loss [3; 0]%Z VNone 10 = Err TypeError.
Proof.
  apply (mse_loss_of_forward_pass zero_model (VMat [[0]; [0]]%R) VNone
           [3; 0]%Z 10).
  - discriminate.
  - repeat (apply Forall_cons_2; [lia|]). apply Forall_nil_2.
  - reflexivity.
Defined.

Lemma mat_zip_f64_single_row (f : f64 → f64 → f64) (a : list (list f64))
    (row : list f64) :
  mat_zip_f64 f a [row] = mat_zip_f64 f a (replicate (length a) row).
Proof.
  unfold mat_zip_f64. cbn [length].
  by rewrite length_replicate, stretch_one, stretch_same_length,
    stretch_replicate.
Qed.

(** X11. A single row of scores is not rejected: numpy stretches it, so the
    loss is the one of the array that repeats the row for every label, down
    to the last bit. *)
Theorem mse_loss_broadcasts_row (dot : list f64 → list f64 → f64)
    (pow2 : f64 → f64) (y : list Z) (C : nat) (row : list f64) :
  y ≠ [] →
  Forall (λ v, (0 ≤ v < Z.of_nat C)%Z) y →
  length row = C →
  let c := f64_div f64_half (f64_of_Z (Z.of_nat (length y))) in
  let d := concat (zip_with (zip_with f64_sub) (spec_onehot_f64 y C)
                     (replicate (length y) row)) in
  let l := f64_mul c (pow2 (f64_sqrt (dot d d))) in
  mse_loss_f64 dot pow2 y (FMat (replicate (length y) row)) C = Ok l ∧
  mse_loss_f64 dot pow2 y (FVec row) C = Ok l ∧
  mse_loss_f64 dot pow2 y (FMat [row]) C = Ok l.
Proof.
  intros Hne Hy Hrow c d l.
  assert (mse_loss_f64 dot pow2 y (FMat (replicate (length y) row)) C = Ok l)
    as Hfull.
  { apply mse_loss_f64_same_shape; [done..|]. by apply Forall2_replicate_r,
      Forall_true. }
  assert (length (spec_onehot_f64 y C) = length y) as Hlen
    by (unfold spec_onehot_f64; by rewrite length_fmap).
  assert (mse_loss_f64 dot pow2 y (FVec row) C
          = mse_loss_f64 dot pow2 y (FMat (replicate (length y) row)) C)
    as Hvec.
  { unfold mse_loss_f64. rewrite (int_to_onehot_f64_spec _ _ Hy).
    cbn [rbind np_sub_f64]. by rewrite mat_zip_f64_single_row, Hlen. }
  assert (mse_loss_f64 dot pow2 y (FMat [row]) C
          = mse_loss_f64 dot pow2 y (FMat (replicate (length y) row)) C)
    as Hmat.
  { unfold mse_loss_f64. rewrite (int_to_onehot_f64_spec _ _ Hy).
    cbn [rbind np_sub_f64]. by rewrite mat_zip_f64_single_row, Hlen. }
  by rewrite Hvec, Hmat.
Qed.

Lemma mse_loss_broadcasts_row_witness :
  let row := [f64_of_Z 3; f64_one] in
  let l := SpecFloat.S754_finite false 7881299347898368 (-51) in
  mse_loss_f64 dot_seq pow2_mul [1; 0]%Z (FMat [row; row]) 2 = Ok l ∧
  mse_loss_f64 dot_seq pow2_mul [1; 0]%Z (FVec row) 2 = Ok l ∧
  mse_loss_f64 dot_seq pow2_mul [1; 0]%Z (FMat [row]) 2 = Ok l.
Proof.
  destruct (mse_loss_broadcasts_row dot_seq pow2_mul [1; 0]%Z 2
              [f64_of_Z 3; f64_one]) as (H1 & H2 & H3).
  - discriminate.
  - repeat (apply Forall_cons_2; [lia|]). apply Forall_nil_2.
  - reflexivity.
  - split; [exact H1|]. split; [exact H2 | exact H3].
Defined.

Lemma zip_result_exn {A B C : Type} (f : A → B → result C) (a : list A)
    (b : list B) (e : exn) :
  (∀ x y e, f x y = Err e → e = ValueError) →
  zip_result f a b = Err e → e = ValueError.
Proof.
  intros Hf. revert b. induction a as [|x a IH]; intros [|y b];
    cbn [zip_result]; try congruence.
  destruct (f x y) as [z|e'] eqn:Hxy; cbn [rbind].
  - destruct (zip_result f a b) as [zs|e'] eqn:Hab; cbn [rbind]; [done|].
    intros [= <-]. by eapply IH.
  - intros [= <-]. by eapply Hf.
Qed.

Lemma zip_result_length {A B C : Type} (f : A → B → result C) (a : list A)
    (b : list B) (c : list C) :
  zip_result f a b = Ok c → length a = length b.
Proof.
  revert b c. induction a as [|x a IH]; intros [|y b] c;
    cbn [zip_result]; try done.
  destruct (f x y); [|done]. cbn [rbind].
  destruct (zip_result f a b) as [zs|] eqn:Hab; [|done].
  intros _. cbn [length]. f_equal. by eapply IH.
Qed.

Lemma mat_sub_exn (a b : matrix) (e : exn) :
  mat_sub a b = Err e → e = ValueError.
Proof.
  unfold mat_sub. apply zip_result_exn. intros r s e'. unfold vec_sub.
  apply zip_result_exn. intros x y e''. done.
Qed.

(** X13. Scores with a wrong number of rows are refused: for two labels or more,
    an array whose row count is neither one nor the number of labels makes
    [mse_loss] raise [ValueError]. *)
Theorem mse_loss_row_mismatch (y : list Z) (C : nat) (scores : matrix) :
  Forall (λ v, (- Z.of_nat C ≤ v < Z.of_nat C)%Z) y →
  2 ≤ length y →
  length scores ≠ length y →
  length scores ≠ 1 →
  mse_loss y (VMat scores) C = Err ValueError.
Proof.
  intros Hy HN Hrows Hone. unfold mse_loss, py_div.
  destruct (int_to_onehot_total y C Hy) as [onehot Hoh]. rewrite Hoh.
  apply int_to_onehot_shape_any in Hoh as [Hlen _]. cbn [rbind].
  rewrite decide_False by lia. cbn [rbind np_sub].
  destruct (mat_sub onehot scores) as [d|e] eqn:Hsub; cbn [rbind].
  - exfalso. unfold mat_sub in Hsub. apply zip_result_length in Hsub.
    assert (stretch (length scores) onehot = onehot) as E1.
    { destruct onehot as [|r1 [|r2 onehot]]; cbn in *; [done|lia|done]. }
    assert (stretch (length onehot) scores = scores) as E2.
    { destruct scores as [|r1 [|r2 scores]]; cbn in *; [done|lia|done]. }
    rewrite E1, E2 in Hsub. lia.
  - by rewrite (mat_sub_exn _ _ _ Hsub).
Qed.

Lemma mse_loss_row_mismatch_witness :
  mse_loss [1; 0]%Z (VMat [[0; 1]; [1; 0]; [0; 0]]%R) 2 = Err ValueError.
Proof.
  apply (mse_loss_row_mismatch [1; 0]%Z 2 [[0; 1]; [1; 0]; [0; 0]]%R).
  - repeat (apply Forall_cons_2; [lia|]). apply Forall_nil_2.
  - simpl. lia.
  - simpl. lia.
  - simpl. lia.
Defined.

(** ** More on the label encoder *)

Lemma norm_index_all_or_out (C : nat) (ys : list Z) :
  (∃ js, Forall2 (λ v j, norm_index C v = Ok j) ys js) ∨
  Exists (λ v, (Z.of_nat C ≤ v ∨ v < - Z.of_nat C)%Z) ys.
Proof.
  induction ys as [|v ys [[js IH]|IH]].
  - left. by exists [].
  - destruct (norm_index C v) as [j|e] eqn:Hv.
    + left. exists (j :: js). by constructor.
    + right. apply Exists_cons_hd. unfold norm_index in Hv.
      repeat case_decide; try done; lia.
  - right. by apply Exists_cons_tl.
Qed.

Lemma int_to_onehot_out (y : list Z) (C : nat) :
  Exists (λ v, (Z.of_nat C ≤ v ∨ v < - Z.of_nat C)%Z) y →
  int_to_onehot y C = Err IndexError.
Proof. intros Hy. unfold int_to_onehot. by apply onehot_loop_out. Qed.

(** X14. Encoding is done row by row: the encoding of two label vectors put end
    to end is the encoding of the first on top of the encoding of the
    second, and it fails when either of them fails. *)
Theorem int_to_onehot_app (y1 y2 : list Z) (C : nat) :
  int_to_onehot (y1 ++ y2) C
  = (m1 ←r int_to_onehot y1 C; m2 ←r int_to_onehot y2 C; Ok (m1 ++ m2)).
Proof.
  destruct (norm_index_all_or_out C y1) as [[js1 H1]|H1].
  - rewrite (int_to_onehot_hot C y1 js1 H1). cbn [rbind].
    destruct (norm_index_all_or_out C y2) as [[js2 H2]|H2].
    + rewrite (int_to_onehot_hot C y2 js2 H2). cbn [rbind].
      rewrite (int_to_onehot_hot C (y1 ++ y2) (js1 ++ js2)).
      * by rewrite fmap_app.
      * by apply Forall2_app.
    + rewrite (int_to_onehot_out y2 C H2). cbn [rbind].
      apply int_to_onehot_out, Exists_app. by right.
  - rewrite (int_to_onehot_out y1 C H1). cbn [rbind].
    apply int_to_onehot_out, Exists_app. by left.
Qed.

Lemma argmax_from_zeros (best : R) (besti i n : nat) :
  (0 <= best)%R → argmax_from best besti i (replicate n 0%R) = besti.
Proof.
  intros Hbest. revert i. induction n as [|n IH]; intros i; [done|].
  cbn [replicate argmax_from]. destruct (Rlt_dec best 0); [lra|apply IH].
Qed.

Lemma argmax_from_hot (besti i j n : nat) :
  argmax_from 0 besti i (replicate j 0%R ++ 1%R :: replicate n 0%R) = i + j.
Proof.
  revert i. induction j as [|j IH]; intros i; cbn [replicate app argmax_from].
  - destruct (Rlt_dec 0 1); [|lra]. rewrite argmax_from_zeros by lra. lia.
  - destruct (Rlt_dec 0 0); [lra|]. rewrite IH. lia.
Qed.

Lemma argmax_hot_row (C j : nat) :
  j < C →
  match <[j := 1%R]> (replicate C 0%R) with
  | [] => Err ValueError
  | x :: row' => Ok (Z.of_nat (argmax_from x 0 1 row'))
  end = Ok (Z.of_nat j).
Proof.
  intros Hj. rewrite insert_replicate_lt by done.
  destruct j as [|j]; cbn [replicate app].
  - by rewrite argmax_from_zeros by lra.
  - by rewrite argmax_from_hot.
Qed.

(** X15. Decoding undoes encoding up to the wrap-around of negative labels: the
    row-wise [argmax] of the encoded labels is the labels modulo the number
    of classes, hence the labels themselves when they lie in [[0, C)]. *)
Theorem argmax_of_int_to_onehot (y : list Z) (C : nat) :
  Forall (λ v, (- Z.of_nat C ≤ v < Z.of_nat C)%Z) y →
  ∃ onehot : matrix,
    int_to_onehot y C = Ok onehot ∧
    np_argmax1 (VMat onehot) = Ok ((λ v, v `mod` Z.of_nat C)%Z <$> y) ∧
    (Forall (λ v, (0 ≤ v)%Z) y → np_argmax1 (VMat onehot) = Ok y).
Proof.
  intros Hy.
  set (col := λ v : Z, Z.to_nat (v `mod` Z.of_nat C)).
  assert (Forall (λ v, norm_index C v = Ok (col v) ∧ col v < C) y) as Hcol.
  { eapply Forall_impl; [exact Hy|]. intros v Hv. cbv beta in Hv.
    unfold col. destruct (decide (0 ≤ v)%Z).
    - rewrite Z.mod_small by lia. split; [apply norm_index_nonneg|]; lia.
    - replace (v `mod` Z.of_nat C)%Z with (Z.of_nat C + v)%Z.
      + split; [apply norm_index_neg|]; lia.
      + apply Z.mod_unique with (q := (-1)%Z); lia. }
  eexists. split; [|split].
  - apply (int_to_onehot_hot C y (col <$> y)).
    apply Forall2_fmap_r, Forall_Forall2_diag.
    eapply Forall_impl; [exact Hcol|]. by intros v [? _].
  - cbn [np_argmax1]. clear Hy. induction Hcol as [|v y [_ Hv] _ IH]; [done|].
    cbn [fmap list_fmap mapM_result]. rewrite (argmax_hot_row C _ Hv).
    cbn [rbind]. cbn [fmap] in IH. rewrite IH. cbn [rbind]. unfold col.
    rewrite Z2Nat.id; [done|]. apply Z.mod_pos_bound. lia.
  - intros Hpos. cbn [np_argmax1].
    assert (Forall (λ v, (0 ≤ v < Z.of_nat C)%Z) y) as Hin.
    { apply Forall_forall. intros v Hv.
      pose proof (proj1 (Forall_forall _ _) Hy v Hv).
      pose proof (proj1 (Forall_forall _ _) Hpos v Hv). cbv beta in *. lia. }
    clear Hy Hpos. revert Hcol.
    induction Hin as [|v y Hv _ IH]; intros Hcol; [done|].
    apply Forall_cons in Hcol as [[_ Hc] Hcol].
    cbn [fmap list_fmap mapM_result]. rewrite (argmax_hot_row C _ Hc).
    cbn [rbind]. cbn [fmap] in IH. rewrite (IH Hcol). cbn [rbind]. unfold col.
    rewrite Z.mod_small by lia. by rewrite Z2Nat.id by lia.
Qed.

Lemma argmax_of_int_to_onehot_witness :
  ∃ onehot : matrix,
    int_to_onehot [2; -1; 0]%Z 3 = Ok onehot ∧
    np_argmax1 (VMat onehot)
    = Ok ((λ v, v `mod` Z.of_nat 3)%Z <$> [2; -1; 0]%Z) ∧
    (Forall (λ v, (0 ≤ v)%Z) [2; -1; 0]%Z →
     np_argmax1 (VMat onehot) = Ok [2; -1; 0]%Z).
Proof.
  apply (argmax_of_int_to_onehot [2; -1; 0]%Z 3).
  repeat (apply Forall_cons_2; [lia|]). apply Forall_nil_2.
Defined.

(** ** Accuracy *)

Lemma np_equal_same_length (a b : list Z) :
  length a = length b →
  np_equal a b = Ok (zip_with (λ x y, bool_decide (x = y)) a b).
Proof.
  intros Hlen. unfold np_equal.
  rewrite <- Hlen at 1. rewrite Hlen at 2. rewrite !stretch_same_length.
  revert b Hlen. induction a as [|x a IH]; intros [|y b] [=]; [done|].
  cbn [zip_result rbind zip_with]. by rewrite IH.
Qed.

Lemma count_true_all (bs : list bool) :
  length (filter (λ t, t = true) bs) = length bs ↔ Forall (λ t, t = true) bs.
Proof.
  induction bs as [|[] bs IH].
  - by split.
  - rewrite filter_cons_True by done. cbn [length]. rewrite Forall_cons.
    split; [intros [= ?]|intros [_ ?]]; [split; [done|]|f_equal]; by apply IH.
  - rewrite filter_cons_False by done. cbn [length]. rewrite Forall_cons.
    pose proof (length_filter (λ t, t = true) bs). split; [lia|].
    by intros [? _].
Qed.

Lemma all_equal_iff (a b : list Z) :
  length a = length b →
  Forall (λ t, t = true) (zip_with (λ x y, bool_decide (x = y)) a b) ↔ a = b.
Proof.
  revert b. induction a as [|x a IH]; intros [|y b] [=]; [done|].
  cbn [zip_with]. rewrite Forall_cons, bool_decide_eq_true, (IH b) by done.
  split; [by intros [-> ->]|by intros [= -> ->]].
Qed.

(** X16. For as many predictions as targets, [accuracy] is a number between 0
    and 1, and it is 1 exactly when every prediction is the target; for no
    example at all it is [nan], not an exception. *)
Theorem accuracy_range (targets predicted_labels : list Z) :
  length predicted_labels = length targets →
  (targets = [] → accuracy targets predicted_labels = Ok NaN) ∧
  (targets ≠ [] →
   ∃ a : R,
     accuracy targets predicted_labels = Ok (Finite a) ∧
     (0 <= a <= 1)%R ∧
     (a = 1%R ↔ predicted_labels = targets)).
Proof.
  intros Hlen. unfold accuracy. rewrite (np_equal_same_length _ _ Hlen).
  cbn [rbind]. split.
  - intros ->. by destruct predicted_labels.
  - intros Hne.
    set (bs := zip_with (λ x y, bool_decide (x = y)) predicted_labels targets).
    assert (length bs = length targets) as Hbs.
    { unfold bs. rewrite length_zip_with. lia. }
    assert (0 < length bs) as Hpos.
    { rewrite Hbs. destruct targets; [done|cbn; lia]. }
    pose proof (length_filter (λ t, t = true) bs) as Hcnt.
    set (cnt := length (filter (λ t, t = true) bs)) in *.
    assert (0 < INR (length bs))%R as HposR by (by apply lt_0_INR).
    assert (0 <= INR cnt <= INR (length bs))%R as HcntR.
    { split; [apply pos_INR|by apply le_INR]. }
    assert (0 < / INR (length bs))%R as Hinv by (apply Rinv_0_lt_compat; lra).
    assert (INR (length bs) * / INR (length bs) = 1)%R as Hone
      by (apply Rinv_r; lra).
    exists (INR cnt / INR (length bs))%R. split; [|split].
    + unfold np_mean_bool. fold cnt. destruct bs; [cbn in Hpos; lia|done].
    + unfold Rdiv. nra.
    + rewrite <- (all_equal_iff _ _ Hlen). fold bs.
      rewrite <- count_true_all. fold cnt. unfold Rdiv. split.
      * intros Ha. apply INR_eq. nra.
      * intros ->. exact Hone.
Qed.

Lemma accuracy_range_witness :
  ([3; 1]%Z = [] → accuracy [3; 1]%Z [3; 0]%Z = Ok NaN) ∧
  ([3; 1]%Z ≠ [] →
   ∃ a : R,
     accuracy [3; 1]%Z [3; 0]%Z = Ok (Finite a) ∧
     (0 <= a <= 1)%R ∧
     (a = 1%R ↔ [3; 0]%Z = [3; 1]%Z)).
Proof. apply (accuracy_range [3; 1]%Z [3; 0]%Z). reflexivity. Defined.

(** ** The relative error *)

(** *** Rounding a number that is not negative *)

Lemma shr_1_nonneg (mrs : SpecFloat.shr_record) :
  (0 ≤ SpecFloat.shr_m mrs)%Z → (0 ≤ SpecFloat.shr_m (SpecFloat.shr_1 mrs))%Z.
Proof. destruct mrs as [[|[p|p|]|p] r s]; simpl; lia. Qed.

Lemma iter_pos_shr_1_nonneg (p : positive) (mrs : SpecFloat.shr_record) :
  (0 ≤ SpecFloat.shr_m mrs)%Z →
  (0 ≤ SpecFloat.shr_m (SpecFloat.iter_pos SpecFloat.shr_1 p mrs))%Z.
Proof.
  revert mrs. induction p as [p IH|p IH|]; intros mrs Hm;
    cbn [SpecFloat.iter_pos]; auto using shr_1_nonneg.
Qed.

Lemma shr_fexp_nonneg (m e : Z) (l : SpecFloat.location) :
  (0 ≤ m)%Z → (0 ≤ SpecFloat.shr_m (SpecFloat.shr_fexp 53 1024 m e l).1)%Z.
Proof.
  intros Hm. unfold SpecFloat.shr_fexp, SpecFloat.shr.
  assert (0 ≤ SpecFloat.shr_m (SpecFloat.shr_record_of_loc m l))%Z as H0
    by (by destruct l as [|[]]).
  destruct (_ - e)%Z; cbn [fst]; auto using iter_pos_shr_1_nonneg.
Qed.

Lemma round_nearest_even_nonneg (m : Z) (l : SpecFloat.location) :
  (0 ≤ m)%Z → (0 ≤ SpecFloat.round_nearest_even m l)%Z.
Proof.
  intros Hm. destruct l as [|[]]; cbn [SpecFloat.round_nearest_even];
    try destruct (Z.even m); lia.
Qed.

(** Rounding a mantissa that is not negative never gives [nan]. *)
Lemma binary_round_aux_number (mx ex : Z) (lx : SpecFloat.location) :
  (0 ≤ mx)%Z → SpecFloat.binary_round_aux 53 1024 false mx ex lx ≠ f64_nan.
Proof.
  intros Hm. unfold SpecFloat.binary_round_aux.
  pose proof (shr_fexp_nonneg mx ex lx Hm) as H1.
  destruct (SpecFloat.shr_fexp 53 1024 mx ex lx) as [mrs' e']. cbn [fst] in H1.
  pose proof (shr_fexp_nonneg _ e' SpecFloat.loc_Exact
    (round_nearest_even_nonneg _ (SpecFloat.loc_of_shr_record mrs') H1)) as H2.
  destruct (SpecFloat.shr_fexp _ _ _ _ _) as [mrs'' e'']. cbn [fst] in H2.
  destruct (SpecFloat.shr_m mrs''); [done| |lia].
  by destruct (_ <=? _)%Z.
Qed.

(** *** One pair of entries *)

Lemma f64_abs_round (s : bool) (mx ex : Z) (lx : SpecFloat.location) :
  f64_abs (SpecFloat.binary_round_aux 53 1024 s mx ex lx)
  = SpecFloat.binary_round_aux 53 1024 false mx ex lx.
Proof.
  unfold SpecFloat.binary_round_aux.
  destruct (SpecFloat.shr_fexp 53 1024 mx ex lx) as [mrs' e'].
  destruct (SpecFloat.shr_fexp _ _ _ _ _) as [mrs'' e''].
  destruct (SpecFloat.shr_m mrs''); [done| |done].
  by destruct (_ <=? _)%Z.
Qed.

Lemma f64_abs_normalize_opp (z e : Z) :
  f64_abs (SpecFloat.binary_normalize 53 1024 (- z) e false)
  = f64_abs (SpecFloat.binary_normalize 53 1024 z e false).
Proof.
  destruct z as [|p|p]; [done|..];
    [change (- Z.pos p)%Z with (Z.neg p) | change (- Z.neg p)%Z with (Z.pos p)];
    unfold SpecFloat.binary_normalize, SpecFloat.binary_round;
    destruct (SpecFloat.shl_align _ _ _) as [mz ez];
    by rewrite !f64_abs_round.
Qed.

Lemma f64_abs_sub_sym (x y : f64) :
  f64_abs (f64_sub x y) = f64_abs (f64_sub y x).
Proof.
  destruct x as [[]|[]| |sx mx ex], y as [[]|[]| |sy my ey]; try done.
  unfold f64_sub, SpecFloat.SFsub. rewrite (Z.min_comm ey ex).
  rewrite <- f64_abs_normalize_opp. f_equal. f_equal. lia.
Qed.

Lemma f64_add_comm (x y : f64) : f64_add x y = f64_add y x.
Proof.
  destruct x as [[]|[]| |sx mx ex], y as [[]|[]| |sy my ey]; try done.
  unfold f64_add, SpecFloat.SFadd. rewrite (Z.min_comm ey ex).
  f_equal. lia.
Qed.

Lemma rel_error1_f64_sym (x y : f64) : rel_error1_f64 x y = rel_error1_f64 y x.
Proof.
  unfold rel_error1_f64.
  by rewrite f64_abs_sub_sym, (f64_add_comm (f64_abs x)).
Qed.

Lemma f64_add_abs_number (x : f64) :
  f64_is_finite x = true →
  f64_sign_clear (f64_add (f64_abs x) (f64_abs x)) = true ∧
  f64_add (f64_abs x) (f64_abs x) ≠ f64_nan.
Proof.
  destruct x as [[]|[]| |s m e]; try done. intros _.
  unfold f64_abs, SpecFloat.SFabs, f64_add, SpecFloat.SFadd.
  unfold SpecFloat.cond_Zopp.
  destruct (SpecFloat.shl_align m e _) as [a ea]. cbn [fst].
  change (Z.pos a + Z.pos a)%Z with (Z.pos (a + a)).
  unfold SpecFloat.binary_normalize, SpecFloat.binary_round.
  destruct (SpecFloat.shl_align _ _ _) as [mz ez].
  split; [apply binary_round_aux_sign | by apply binary_round_aux_number].
Qed.

Lemma f64_1e_8_value :
  f64_1e_8 = SpecFloat.S754_finite false 6044629098073146 (-79).
Proof. by vm_compute. Qed.

Lemma f64_maximum_1e_8_positive (x : f64) :
  f64_sign_clear x = true → x ≠ f64_nan →
  f64_positive (f64_maximum f64_1e_8 x) = true.
Proof.
  rewrite f64_1e_8_value.
  destruct x as [[]|[]| |[] m e]; try done. intros _ _.
  unfold f64_maximum. by destruct (f64_leb _ _).
Qed.

Lemma f64_div_zero_positive (x : f64) :
  f64_positive x = true → f64_div f64_zero x = f64_zero.
Proof. by destruct x as [[]|[]| |[] m e]. Qed.

(** A finite number has no relative error against itself. *)
Lemma rel_error1_f64_same (x : f64) :
  f64_is_finite x = true → rel_error1_f64 x x = f64_zero.
Proof.
  intros Hx. unfold rel_error1_f64. rewrite f64_sub_diag by done.
  destruct (f64_add_abs_number x Hx) as [Hs Hn].
  apply f64_div_zero_positive. by apply f64_maximum_1e_8_positive.
Qed.

Lemma list_max_f64_zeros (l : list f64) :
  l ≠ [] → Forall (λ x, x = f64_zero) l → list_max_f64 l = Ok f64_zero.
Proof.
  destruct l as [|x l]; [done|]. intros _ Hl.
  apply Forall_cons in Hl as [-> Hl]. cbn [list_max_f64]. f_equal.
  induction Hl as [|z l -> _ IH]; [done|]. exact IH.
Qed.

(** *** Arrays of one shape *)

Lemma stretch_length {A : Type} (n : nat) (l : list A) :
  length l = n → stretch n l = l.
Proof. intros <-. apply stretch_same_length. Qed.

Lemma vec_zip_f64_fmap {A : Type} (f : f64 → f64 → f64) (u v : A → f64)
    (p : list A) :
  vec_zip_f64 f (u <$> p) (v <$> p) = Ok ((λ x, f (u x) (v x)) <$> p).
Proof.
  unfold vec_zip_f64. rewrite !stretch_length by (by rewrite !length_fmap).
  induction p as [|x p IH]; [done|].
  cbn [fmap list_fmap zip_result rbind]. cbn [fmap] in IH. by rewrite IH.
Qed.

Lemma mat_zip_f64_fmap {A : Type} (f : f64 → f64 → f64) (u v : A → f64)
    (P : list (list A)) :
  mat_zip_f64 f ((λ row : list A, u <$> row) <$> P)
    ((λ row : list A, v <$> row) <$> P)
  = Ok ((λ row : list A, (λ x, f (u x) (v x)) <$> row) <$> P).
Proof.
  unfold mat_zip_f64. rewrite !stretch_length by (by rewrite !length_fmap).
  induction P as [|p P IH]; [done|].
  cbn [fmap list_fmap zip_result]. rewrite vec_zip_f64_fmap. cbn [rbind].
  cbn [fmap] in IH. by rewrite IH.
Qed.

Lemma fmap2_compose {A B C : Type} (u : A → B) (w : B → C)
    (P : list (list A)) :
  (λ row : list B, w <$> row) <$> ((λ row : list A, u <$> row) <$> P)
  = (λ row : list A, (λ x, w (u x)) <$> row) <$> P.
Proof.
  rewrite <- list_fmap_compose. apply list_fmap_ext. intros _ row _.
  cbn [compose]. by rewrite <- list_fmap_compose.
Qed.

Lemma unzip_rows (a b : list (list f64)) :
  Forall2 (λ r s : list f64, length r = length s) a b →
  a = (λ row : list (f64 * f64), fst <$> row) <$> zip_with zip a b ∧
  b = (λ row : list (f64 * f64), snd <$> row) <$> zip_with zip a b.
Proof.
  induction 1 as [|r s a b Hrs _ [IHa IHb]]; [done|].
  cbn [zip_with fmap list_fmap]. cbn [fmap] in IHa, IHb.
  rewrite <- IHa, <- IHb. rewrite fst_zip, snd_zip by lia. done.
Qed.

Lemma zip_rows_fmap (f : f64 → f64 → f64) (a b : list (list f64)) :
  (λ row : list (f64 * f64), (λ p : f64 * f64, f p.1 p.2) <$> row)
    <$> zip_with zip a b
  = zip_with (zip_with f) a b.
Proof.
  revert b. induction a as [|r a IH]; intros [|s b]; try done.
  cbn [zip_with fmap list_fmap]. cbn [fmap] in IH. rewrite IH. f_equal.
  rewrite (zip_with_zip f). by apply list_fmap_ext; intros _ [] _.
Qed.

(** On arrays of one shape [rel_error] is the largest entrywise quotient. *)
Lemma rel_error_f64_same_shape (a b : list (list f64)) :
  Forall2 (λ r s : list f64, length r = length s) a b →
  rel_error_f64 (FMat a) (FMat b)
  = list_max_f64 (concat (zip_with (zip_with rel_error1_f64) a b)).
Proof.
  intros Hshape. rewrite <- zip_rows_fmap.
  destruct (unzip_rows a b Hshape) as [Ha Hb].
  set (P := zip_with zip a b) in *. rewrite Ha at 1. rewrite Hb at 1.
  unfold rel_error_f64. cbn [np_binop_f64]. rewrite mat_zip_f64_fmap.
  cbn [rmap rbind np_map_f64]. rewrite !fmap2_compose. cbn [np_binop_f64].
  rewrite mat_zip_f64_fmap. cbn [rmap rbind np_map_f64].
  rewrite !fmap2_compose. cbn [np_binop_f64].
  rewrite mat_zip_f64_fmap. cbn [rmap rbind np_max_f64]. done.
Qed.

(** The relative error is not confined to [[0, 1]]: for the largest finite
    number and its negative both the difference and the sum of the absolute
    values overflow, and the quotient is [nan]. *)
Example rel_error_f64_overflow :
  rel_error_f64 (FMat [[SpecFloat.S754_finite false 9007199254740991 971]])
    (FMat [[SpecFloat.S754_finite true 9007199254740991 971]])
  = Ok f64_nan.
Proof. by vm_compute. Qed.

(** X17. For two arrays of one shape with at least one entry, [rel_error]
    returns a number that does not depend on the order of its arguments; for
    an array without [inf] and [nan] and itself it returns [+0.0]. *)
Theorem rel_error_symmetric (a b : list (list f64)) :
  Forall2 (λ r s : list f64, length r = length s) a b →
  concat a ≠ [] →
  (∃ r : f64,
     rel_error_f64 (FMat a) (FMat b) = Ok r ∧
     rel_error_f64 (FMat b) (FMat a) = Ok r) ∧
  (Forall (Forall (λ x, f64_is_finite x = true)) a →
   rel_error_f64 (FMat a) (FMat a) = Ok f64_zero).
Proof.
  intros Hshape Hne.
  assert (∀ c : list (list f64),
            Forall2 (λ r s : list f64, length r = length s) a c →
            concat (zip_with (zip_with rel_error1_f64) a c) ≠ []) as Hne'.
  { intros c Hc Hnil. apply Hne. clear Hne Hshape.
    induction Hc as [|r s a c Hrs _ IH]; [done|].
    cbn [zip_with concat] in *. apply app_eq_nil in Hnil as [Hr Hnil].
    rewrite (IH Hnil), app_nil_r.
    destruct r, s; cbn in *; congruence. }
  split.
  - rewrite (rel_error_f64_same_shape a b Hshape).
    rewrite (rel_error_f64_same_shape b a).
    2:{ apply Forall2_flip. eapply Forall2_impl; [exact Hshape|]. done. }
    assert (zip_with (zip_with rel_error1_f64) b a
            = zip_with (zip_with rel_error1_f64) a b) as ->.
    { clear. revert b.
      induction a as [|ra a IH]; intros [|rb b]; try done.
      cbn [zip_with]. rewrite IH. f_equal. clear. revert rb.
      induction ra as [|x ra IH]; intros [|y rb]; try done.
      cbn [zip_with]. by rewrite IH, rel_error1_f64_sym. }
    specialize (Hne' b Hshape).
    destruct (concat (zip_with (zip_with rel_error1_f64) a b)) as [|x l];
      [done|]. by eexists.
  - intros Hfin.
    assert (Forall2 (λ r s : list f64, length r = length s) a a) as Hdiag.
    { by apply Forall_Forall2_diag, Forall_true. }
    rewrite (rel_error_f64_same_shape a a Hdiag).
    apply list_max_f64_zeros; [by apply Hne'|].
    apply Forall_concat, Forall_forall. intros row Hrow.
    apply list_elem_of_lookup in Hrow as [i Hi].
    apply lookup_zip_with_Some in Hi as (r1 & s1 & -> & Hr1 & Hs1).
    assert (r1 = s1) as <- by congruence.
    rewrite zip_with_diag. apply Forall_fmap.
    eapply Forall_impl; [exact (proj1 (Forall_lookup _ _) Hfin i r1 Hr1)|].
    intros x Hx. cbn [compose]. by apply rel_error1_f64_same.
Qed.

Lemma rel_error_symmetric_witness :
  let a := [[f64_one; f64_of_Z 2]] in
  let b := [[f64_one; f64_of_Z 3]] in
  (∃ r : f64,
     rel_error_f64 (FMat a) (FMat b) = Ok r ∧
     rel_error_f64 (FMat b) (FMat a) = Ok r) ∧
  rel_error_f64 (FMat a) (FMat a) = Ok f64_zero.
Proof.
  destruct (rel_error_symmetric [[f64_one; f64_of_Z 2]]
              [[f64_one; f64_of_Z 3]]) as [H1 H2].
  - repeat constructor.
  - discriminate.
  - split; [exact H1|]. apply H2. repeat constructor.
Defined.

(** ** The numerical gradient *)

Lemma setitem_at_restore (x : matrix) (ix : nat * nat) (a b : R) :
  setitem_at (setitem_at (setitem_at x ix a) ix b) ix (getitem_at x ix) = x.
Proof.
  destruct ix as [i j]. unfold setitem_at, getitem_at. cbn [fst snd].
  apply list_eq. intros k. destruct (decide (k = i)) as [->|Hne].
  - rewrite !list_lookup_alter_eq. destruct (x !! i) as [row|]; [|done].
    cbn. f_equal. rewrite !list_insert_insert_eq.
    destruct (row !! j) as [v|] eqn:Hj; cbn.
    + by apply list_insert_id.
    + apply list_insert_ge. by apply lookup_ge_None.
  - by rewrite !list_lookup_alter_ne.
Qed.

Lemma setitem_at_shape (x grad : matrix) (ix : nat * nat) (v : R) :
  Forall2 (λ r s : vector, length r = length s) grad x →
  Forall2 (λ r s : vector, length r = length s) (setitem_at grad ix v) x.
Proof.
  intros Hshape. unfold setitem_at. apply Forall2_alter_l; [done|].
  intros r s _ _ Hrs. by rewrite length_insert.
Qed.

Lemma numerical_gradient_at_returned (f : matrix → value) (df : value)
    (h : R) (x grad x' grad' : matrix) (ix : nat * nat) :
  numerical_gradient_at f df h x grad ix = (x', Returned grad') →
  x' = x ∧
  (Forall2 (λ r s : vector, length r = length s) grad x →
   Forall2 (λ r s : vector, length r = length s) grad' x).
Proof.
  unfold numerical_gradient_at.
  destruct (np_copy (f _)) as [pos|]; [|done].
  destruct (np_copy (f _)) as [neg|]; [|done].
  destruct (rbind _ _) as [s|]; [|done].
  intros [= <- <-]. split; [apply setitem_at_restore|].
  apply setitem_at_shape.
Qed.

Lemma numerical_gradient_loop_returned (f : matrix → value) (df : value)
    (h : R) (ixs : list (nat * nat)) :
  ∀ x grad x' grad' : matrix,
    numerical_gradient_loop f df h x grad ixs = (x', Returned grad') →
    x' = x ∧
    (Forall2 (λ r s : vector, length r = length s) grad x →
     Forall2 (λ r s : vector, length r = length s) grad' x).
Proof.
  induction ixs as [|ix ixs IH]; intros x grad x' grad';
    cbn [numerical_gradient_loop].
  - by intros [= <- <-].
  - destruct (numerical_gradient_at f df h x grad ix) as [x1 [grad1|e]] eqn:H1;
      [|done].
    apply numerical_gradient_at_returned in H1 as [-> Hshape1].
    intros Hloop. apply IH in Hloop as [-> Hshape]. auto.
Qed.

(** X18. A call that returns has put every entry of [x] back: the array is what
    it was before the call, and the gradient has its shape. *)
Theorem eval_numerical_gradient_array_restores (f : matrix → value)
    (df : value) (h : R) (x x' grad : matrix) :
  eval_numerical_gradient_array f x df h = (x', Returned grad) →
  x' = x ∧ Forall2 (λ r s : vector, length r = length s) grad x.
Proof.
  unfold eval_numerical_gradient_array.
  destruct (multi_indices x) as [|ix ixs]; [done|].
  intros Hloop. apply numerical_gradient_loop_returned in Hloop as [-> Hshape].
  split; [done|]. apply Hshape. unfold np_zeros_like.
  apply Forall2_fmap_l, Forall_Forall2_diag, Forall_true. intros row.
  cbn [compose]. by rewrite length_fmap.
Qed.


Lemma eval_numerical_gradient_array_restores_witness :
  ∃ grad : matrix,
    eval_numerical_gradient_array (λ x, VMat x) [[1]]%R (VMat [[1]]%R) 1
    = ([[1]]%R, Returned grad) ∧
    [[1]]%R = [[1]]%R ∧
    Forall2 (λ r s : vector, length r = length s) grad [[1]]%R.
Proof.
  eexists. split; [reflexivity|].
  apply (eval_numerical_gradient_array_restores (λ x, VMat x) (VMat [[1]]%R)
           1%R [[1]]%R [[1]]%R).
  reflexivity.
Defined.


(** ** The normalisation of the pixels *)

(** X20. Pixel intensities between 0 and 255 are mapped into [[-1, 1]], with 0
    sent to -1 and 255 to 1; the shape of the array is kept. *)
Theorem normalize_pixels_range (X : matrix) :
  Forall (Forall (λ p, 0 <= p <= 255)%R) X →
  Forall2 (λ r s : vector, length r = length s) (normalize_pixels X) X ∧
  Forall (Forall (λ p, -1 <= p <= 1)%R) (normalize_pixels X) ∧
  normalize_pixels [[0; 255]]%R = [[-1; 1]]%R.
Proof.
  intros HX. unfold normalize_pixels. split; [|split].
  - apply Forall2_fmap_l, Forall_Forall2_diag, Forall_true. intros row.
    cbn [compose]. by rewrite length_fmap.
  - apply Forall_fmap. eapply Forall_impl; [exact HX|]. intros row Hrow.
    cbn [compose]. apply Forall_fmap. eapply Forall_impl; [exact Hrow|].
    intros p Hp. cbn [compose]. cbv beta in Hp. lra.
  - cbn [fmap list_fmap]. repeat f_equal; lra.
Qed.

Lemma normalize_pixels_range_witness :
  Forall2 (λ r s : vector, length r = length s)
    (normalize_pixels [[0; 128]; [255; 64]]%R) [[0; 128]; [255; 64]]%R ∧
  Forall (Forall (λ p, -1 <= p <= 1)%R)
    (normalize_pixels [[0; 128]; [255; 64]]%R) ∧
  normalize_pixels [[0; 255]]%R = [[-1; 1]]%R.
Proof.
  apply (normalize_pixels_range [[0; 128]; [255; 64]]%R).
  repeat (apply Forall_cons_2;
          [repeat (apply Forall_cons_2; [lra|]); apply Forall_nil_2|]).
  apply Forall_nil_2.
Defined.

(** ** A constructed model *)

(** X8. A model that the constructor has returned holds its four parameters:
    its forward pass returns [None], and with labels [loss] raises
    [NameError], whatever the input and the labels. *)
Theorem loss_of_constructed_model {rng_state : Type}
    (RandomState : Z → result rng_state)
    (normal : rng_state → R → R → nat → nat → matrix * rng_state)
    (g g' : rng_state) (F H C : nat) (seed : Z) (m : TwoLayerNN) (X : value) :
  TwoLayerNN_init RandomState normal g F H C seed = Ok (m, g') →
  Forall (λ k, is_Some (params m !! k)) param_names ∧
  loss m X None = Ok (Scores VNone) ∧
  ∀ y, loss m X (Some y) = Err NameError.
Proof.
  unfold TwoLayerNN_init. destruct (RandomState seed) as [st|]; [|done].
  cbn [rbind]. destruct (normal st 0%R 0.001%R F H) as [w1 st1].
  destruct (normal st1 0%R 0.001%R H C) as [w2 st2]. intros [= <- _].
  assert (Forall (λ k, is_Some (params
            {| num_classes := C;
               params := <["bias_out" := VVec (np_zeros1 C)]>
                           (<["weight_out" := VMat w2]>
                             (<["bias_in" := VVec (np_zeros1 H)]>
                               (<["weight_in" := VMat w1]> ∅))) |} !! k))
            param_names) as Hp.
  { repeat (apply Forall_cons_2; [by eexists|]). apply Forall_nil_2. }
  split; [exact Hp|]. by apply loss_with_params.
Qed.

Lemma loss_of_constructed_model_witness :
  ∃ m : TwoLayerNN,
    TwoLayerNN_init counter_RandomState counter_normal 0 4 3 2 1 = Ok (m, 0) ∧
    Forall (λ k, is_Some (params m !! k)) param_names ∧
    loss m (VMat [[1; 2; 3; 4]]%R) None = Ok (Scores VNone) ∧
    ∀ y, loss m (VMat [[1; 2; 3; 4]]%R) (Some y) = Err NameError.
Proof.
  eexists. split; [reflexivity|].
  eapply (loss_of_constructed_model counter_RandomState counter_normal
            0 0 4 3 2 1).
  reflexivity.
Defined.
